(** * Doors of Perception: a shallow embedding of [main.py]

    The game keeps its whole world in module-level globals (the sprite
    groups, the scoreboard, the game-over message) and in locals of
    [main] (the current state, the [running] flag).  The embedding puts
    them in one record, [Game], and every method that mutates them is a
    function from [Game] to [Game].

    The pygame calls the program makes are modelled in [Module Pygame]:
    rectangles with integer coordinates, [colliderect], the sprite
    collision helpers, and the conversion pygame applies when a Python
    number is stored in a rectangle. *)

From Stdlib Require Import ZArith List Bool String Lia Floats.
Import ListNotations.
Open Scope string_scope.
Open Scope list_scope.
Open Scope Z_scope.

(** ** Python numbers

    A monster's speed is written [2] for some monsters and [2.3] for
    others, so it is a Python [int] or a Python [float]; the timer is a
    [float].  Floats are IEEE binary64, as in CPython. *)

Inductive number : Type :=
| PyInt (n : Z)
| PyFloat (f : float).

(** [float(n)] for a Python int: the nearest binary64 value. *)
Definition float_of_int (n : Z) : float :=
  SF2Prim (binary_normalize prec emax n 0 false).

(** [n + v] with [n] an int. *)
Definition int_add (n : Z) (v : number) : number :=
  match v with
  | PyInt k => PyInt (n + k)
  | PyFloat f => PyFloat (float_of_int n + f)%float
  end.

(** [-v]. *)
Definition neg (v : number) : number :=
  match v with
  | PyInt k => PyInt (- k)
  | PyFloat f => PyFloat (- f)%float
  end.

Module Pygame.

(** [pygame.Rect]: four C ints. *)
Record Rect : Type := mkRect { x : Z; y : Z; w : Z; h : Z }.

Definition right (r : Rect) : Z := x r + w r.
Definition centerx (r : Rect) : Z := x r + Z.quot (w r) 2.
Definition centery (r : Rect) : Z := y r + Z.quot (h r) 2.

Definition set_x (r : Rect) (v : Z) : Rect := mkRect v (y r) (w r) (h r).
Definition set_y (r : Rect) (v : Z) : Rect := mkRect (x r) v (w r) (h r).

(** Storing a Python number in a coordinate of a [Rect]: an int is
    stored as it is, a float is cut towards zero.  That is the C cast
    of pygame-ce, the pygame the source is written for (it runs under
    Pygbag); some releases of pygame round to the nearest int instead.
    The two agree on a float speed added to the right (195 + 2.3 is
    stored as 197 by both) and differ on one added to the left
    (100 - 2.3 is stored as 97 here, as 98 there); only the examples
    that run a float speed leftwards, [to_coord_float] and the two
    whole runs, are computed with the cut.  The game keeps every
    coordinate on its 1280x720 screen and every speed finite; the
    exceptions pygame raises for a value outside the C int range or for
    a float that is not finite are not part of the embedding (such a
    float is stored as 0). *)
Definition to_coord (v : number) : Z :=
  match v with
  | PyInt n => n
  | PyFloat f =>
      match Prim2SF f with
      | S754_finite s m e =>
          let a := if 0 <=? e then Z.shiftl (Zpos m) e
                   else Z.shiftr (Zpos m) (- e) in
          if s then - a else a
      | _ => 0
      end
  end.

(** [image.get_rect(center=position)] for an image of the given
    size. *)
Definition get_rect (size : Z * Z) (center : Z * Z) : Rect :=
  mkRect (fst center - Z.quot (fst size) 2)
         (snd center - Z.quot (snd size) 2)
         (fst size) (snd size).

(** [a.colliderect(b)], as pygame 2 computes it: a rectangle of zero
    width or height collides with nothing, and the edges are strict. *)
Definition colliderect (a b : Rect) : bool :=
  if (w a =? 0) || (h a =? 0) || (w b =? 0) || (h b =? 0) then false
  else
    (Z.min (x a) (x a + w a) <? Z.max (x b) (x b + w b))
    && (Z.min (y a) (y a + h a) <? Z.max (y b) (y b + h b))
    && (Z.min (x b) (x b + w b) <? Z.max (x a) (x a + w a))
    && (Z.min (y b) (y b + h b) <? Z.max (y a) (y a + h a)).

Section Groups.
Context {A : Type} (rect : A -> Rect).

(** [pygame.sprite.spritecollide(sprite, group, dokill)]: the
    members of [group] whose rectangle collides with the sprite's,
    in the group's order. *)
Definition spritecollide (sprite : Rect) (group : list A) : list A :=
  filter (fun s => colliderect sprite (rect s)) group.

(** What is left of [group] after [spritecollide(sprite, group,
    True)]: every member that collided has been killed, that is,
    removed from the group. *)
Definition after_dokill (sprite : Rect) (group : list A) : list A :=
  filter (fun s => negb (colliderect sprite (rect s))) group.

(** [pygame.sprite.spritecollideany(sprite, group)], used as a
    condition: is there a member that collides. *)
Definition spritecollideany (sprite : Rect) (group : list A) : bool :=
  existsb (fun s => colliderect sprite (rect s)) group.
End Groups.

(** Truth value of a Python list. *)
Definition truthy {A : Type} (l : list A) : bool :=
  match l with [] => false | _ :: _ => true end.

End Pygame.
Import Pygame.

(** ** Sprites and the scoreboard *)

Record Wall : Type := mkWall { wall_rect : Rect }.

Record Monster : Type := mkMonster {
  monster_rect : Rect;
  speed : number;
  direction : string
}.

Record Player : Type := mkPlayer {
  player_rect : Rect;
  player_speed : Z;
  original_position : Z * Z
}.

Record Coin : Type := mkCoin { coin_rect : Rect }.

Record Portal : Type := mkPortal { portal_rect : Rect }.

Record Scoreboard : Type := mkScoreboard {
  coins_collected : Z;
  time_left : float;
  ghosts_busted : Z;
  portals_remaining : Z;
  points : Z
}.

Inductive GameState : Type :=
| GAME_STATE_START
| GAME_STATE_PLAYING
| GAME_STATE_GAME_OVER.

Definition GameState_eqb (a b : GameState) : bool :=
  match a, b with
  | GAME_STATE_START, GAME_STATE_START
  | GAME_STATE_PLAYING, GAME_STATE_PLAYING
  | GAME_STATE_GAME_OVER, GAME_STATE_GAME_OVER => true
  | _, _ => false
  end.

(** The globals of the module and the locals of [main].  [player_group]
    is a [GroupSingle] that always holds its sprite: nothing in the
    program kills the player.  [scoreboard] is set by
    [initialise_game_objects] before the first frame, so the
    [if scoreboard:] tests of the source always pass. *)
Record Game : Type := mkGame {
  scoreboard : Scoreboard;
  player_group : Player;
  portals_group : list Portal;
  monsters_group : list Monster;
  coins_group : list Coin;
  walls_group : list Wall;
  game_over_reason_message : string;
  current_game_state : GameState;
  running : bool
}.

Definition with_scoreboard (sb : Scoreboard) (g : Game) : Game :=
  mkGame sb (player_group g) (portals_group g) (monsters_group g)
         (coins_group g) (walls_group g) (game_over_reason_message g)
         (current_game_state g) (running g).

Definition with_player (p : Player) (g : Game) : Game :=
  mkGame (scoreboard g) p (portals_group g) (monsters_group g)
         (coins_group g) (walls_group g) (game_over_reason_message g)
         (current_game_state g) (running g).

Definition with_portals (ps : list Portal) (g : Game) : Game :=
  mkGame (scoreboard g) (player_group g) ps (monsters_group g)
         (coins_group g) (walls_group g) (game_over_reason_message g)
         (current_game_state g) (running g).

Definition with_monsters (ms : list Monster) (g : Game) : Game :=
  mkGame (scoreboard g) (player_group g) (portals_group g) ms
         (coins_group g) (walls_group g) (game_over_reason_message g)
         (current_game_state g) (running g).

Definition with_coins (cs : list Coin) (g : Game) : Game :=
  mkGame (scoreboard g) (player_group g) (portals_group g) (monsters_group g)
         cs (walls_group g) (game_over_reason_message g)
         (current_game_state g) (running g).

Definition with_running (b : bool) (g : Game) : Game :=
  mkGame (scoreboard g) (player_group g) (portals_group g) (monsters_group g)
         (coins_group g) (walls_group g) (game_over_reason_message g)
         (current_game_state g) b.

(** [set_game_state], the closure of [main] that every [update] gets as
    its state setter. *)
Definition set_game_state (new_state : GameState) (reason : string)
    (g : Game) : Game :=
  mkGame (scoreboard g) (player_group g) (portals_group g) (monsters_group g)
         (coins_group g) (walls_group g)
         (match new_state with
          | GAME_STATE_GAME_OVER => reason
          | _ => game_over_reason_message g
          end)
         new_state (running g).

(** ** Scoreboard *)

Definition new_portal (self : Scoreboard) : Scoreboard :=
  mkScoreboard (coins_collected self) (time_left self) (ghosts_busted self)
               (portals_remaining self - 1) (points self).

Definition ghost_busted (self : Scoreboard) : Scoreboard :=
  mkScoreboard (coins_collected self) (time_left self) (ghosts_busted self + 1)
               (portals_remaining self) (points self).

Definition coin_collected (self : Scoreboard) : Scoreboard :=
  mkScoreboard (coins_collected self + 1) (time_left self) (ghosts_busted self)
               (portals_remaining self) (points self).

Definition is_time_up (self : Scoreboard) : bool :=
  (time_left self <=? 0)%float.

(** The per-frame deduction, [1 / 60] in Python: a float division. *)
Definition frame_time : float := (1 / 60)%float.

Definition Scoreboard_update (g : Game) : Game :=
  let self := scoreboard g in
  let self := mkScoreboard (coins_collected self)
                           (time_left self - frame_time)%float
                           (ghosts_busted self) (portals_remaining self)
                           (coins_collected self * 100 + ghosts_busted self * 50) in
  let g := with_scoreboard self g in
  if is_time_up self
  then set_game_state GAME_STATE_GAME_OVER "You ran out of time!" g
  else g.

(** ** Monster *)

(** What [Monster.update] does to the monster itself: the monster stays
    in [monsters_group] with new fields, or it has killed itself. *)
Inductive Fate : Type :=
| Alive (self : Monster)
| Killed.

(** [self.rect.x += self.speed] and [self.rect.y += self.speed]. *)
Definition move_x (self : Monster) : Rect :=
  set_x (monster_rect self)
        (to_coord (int_add (x (monster_rect self)) (speed self))).

Definition move_y (self : Monster) : Rect :=
  set_y (monster_rect self)
        (to_coord (int_add (y (monster_rect self)) (speed self))).

(** Lines 75-96: the move along the monster's axis and the bounce off a
    wall.  A direction that is neither string leaves the monster where
    it is. *)
Definition Monster_move (self : Monster) (walls : list Wall) : Monster :=
  let original_x := x (monster_rect self) in
  let original_y := y (monster_rect self) in
  if (direction self =? "horizontal")%string then
    let r := move_x self in
    if spritecollideany wall_rect r walls
    then mkMonster (set_x r original_x) (neg (speed self)) (direction self)
    else mkMonster r (speed self) (direction self)
  else if (direction self =? "vertical")%string then
    let r := move_y self in
    if spritecollideany wall_rect r walls
    then mkMonster (set_y r original_y) (neg (speed self)) (direction self)
    else mkMonster r (speed self) (direction self)
  else self.

(** [Monster.update(player, walls, portals, current_game_state_setter)].
    The method reads the player, the walls and the portals, and writes
    the monster itself, the portals group (the [dokill=True] of line
    102), the scoreboard and the game state. *)
Definition Monster_update (self : Monster) (g : Game) : Fate * Game :=
  if truthy (spritecollide monster_rect (player_rect (player_group g)) [self])
  then
    (Alive (mkMonster (monster_rect self) (PyInt 0) (direction self)),
     set_game_state GAME_STATE_GAME_OVER
                    "You were discombobulated by a ghost!" g)
  else
    let self := Monster_move self (walls_group g) in
    if truthy (spritecollide portal_rect (monster_rect self) (portals_group g))
    then
      (Killed,
       with_scoreboard (ghost_busted (scoreboard g))
         (with_portals
            (after_dokill portal_rect (monster_rect self) (portals_group g))
            g))
    else (Alive self, g).

Definition survivor (f : Fate) : list Monster :=
  match f with
  | Alive m => [m]
  | Killed => []
  end.

(** [monsters_group.update(...)]: [Group.update] calls [update] on each
    sprite of a copy of the group's list, in the order the sprites were
    added.  A monster only ever changes or kills itself, so the group
    after the loop is the list of the survivors, in order. *)
Fixpoint update_each (sprites : list Monster) (g : Game)
  : list Monster * Game :=
  match sprites with
  | [] => ([], g)
  | m :: rest =>
      let (f, g1) := Monster_update m g in
      let (ms, g2) := update_each rest g1 in
      (survivor f ++ ms, g2)
  end.

Definition monsters_group_update (g : Game) : Game :=
  let (ms, g') := update_each (monsters_group g) g in
  with_monsters ms g'.

(** ** Player *)

(** [pygame.key.get_pressed()], read at the four arrow keys. *)
Record Keys : Type := mkKeys {
  K_LEFT : bool;
  K_RIGHT : bool;
  K_UP : bool;
  K_DOWN : bool
}.

(** Lines 131-154: the two axes are moved and checked against the walls
    one after the other. *)
Definition Player_move (keys : Keys) (self : Player) (walls : list Wall)
  : Rect :=
  let r := player_rect self in
  let original_x := x r in
  let original_y := y r in
  let r := if K_LEFT keys then set_x r (x r - player_speed self)
           else if K_RIGHT keys then set_x r (x r + player_speed self)
           else r in
  let r := if spritecollideany wall_rect r walls then set_x r original_x
           else r in
  let r := if K_UP keys then set_y r (y r - player_speed self)
           else if K_DOWN keys then set_y r (y r + player_speed self)
           else r in
  if spritecollideany wall_rect r walls then set_y r original_y else r.

(** [Player.update(keys, walls, coins, current_game_state_setter)]. *)
Definition Player_update (keys : Keys) (g : Game) : Game :=
  let self := player_group g in
  if 1050 <? right (player_rect self)
  then set_game_state GAME_STATE_GAME_OVER "You made it out alive!" g
  else
    let r := Player_move keys self (walls_group g) in
    let g := with_player
               (mkPlayer r (player_speed self) (original_position self)) g in
    if truthy (spritecollide coin_rect r (coins_group g))
    then with_scoreboard (coin_collected (scoreboard g))
           (with_coins (after_dokill coin_rect r (coins_group g)) g)
    else g.

(** ** Portal *)

(** What the images on disk contribute: their sizes.  The files are not
    part of the sources, so the sizes are parameters of everything that
    loads an image. *)
Record Images : Type := mkImages {
  robot_png : Z * Z;
  monster_png : Z * Z;
  coin_png : Z * Z;
  door_png : Z * Z
}.

(** [Portal(image, position, speed)]: the constructor builds the sprite
    and, as a side effect, calls [scoreboard.new_portal()]. *)
Definition Portal_init (img : Images) (position : Z * Z) (g : Game)
  : Portal * Game :=
  (mkPortal (get_rect (door_png img) position),
   with_scoreboard (new_portal (scoreboard g)) g).

(** [Portal.update(monsters)]. *)
Definition Portal_update (self : Portal) (g : Game) : Game :=
  if truthy (spritecollide monster_rect (portal_rect self) (monsters_group g))
  then with_scoreboard (ghost_busted (scoreboard g))
         (with_monsters
            (after_dokill monster_rect (portal_rect self) (monsters_group g))
            g)
  else g.

(** [portals_group.update(monsters_group)]: no portal is added or
    killed during the loop. *)
Definition portals_group_update (g : Game) : Game :=
  fold_left (fun g p => Portal_update p g) (portals_group g) g.

(** ** A new game *)

Definition Scoreboard_init : Scoreboard :=
  mkScoreboard 0 100 0 5 0.

Definition Monster_init (img : Images) (position : Z * Z) (speed : number)
    (direction : string) : Monster :=
  mkMonster (get_rect (monster_png img) position) speed direction.

Definition Player_init (img : Images) (position : Z * Z) (speed : Z)
  : Player :=
  mkPlayer (get_rect (robot_png img) position) speed position.

Definition Coin_init (img : Images) (position : Z * Z) : Coin :=
  mkCoin (get_rect (coin_png img) position).

Definition Wall_init (start_x start_y width height : Z) : Wall :=
  mkWall (mkRect start_x start_y width height).

Set Warnings "-inexact-float".

Definition the_monsters (img : Images) : list Monster :=
  [ Monster_init img (220, 100) (PyFloat 2.3) "horizontal";
    Monster_init img (200, 400) (PyFloat 2.1) "vertical";
    Monster_init img (300, 450) (PyFloat 1.9) "horizontal";
    Monster_init img (400, 225) (PyInt 2) "vertical";
    Monster_init img (490, 650) (PyFloat 2.2) "horizontal";
    Monster_init img (500, 200) (PyInt 2) "vertical";
    Monster_init img (630, 550) (PyFloat 2.4) "horizontal";
    Monster_init img (600, 450) (PyFloat 2.1) "vertical";
    Monster_init img (700, 450) (PyFloat 1.9) "horizontal";
    Monster_init img (800, 200) (PyFloat 1.9) "horizontal";
    Monster_init img (900, 300) (PyFloat 2.1) "horizontal";
    Monster_init img (1000, 625) (PyInt 2) "vertical" ].

Set Warnings "+inexact-float".

Definition the_coins (img : Images) : list Coin :=
  map (Coin_init img)
    [ (100, 100); (100, 535); (100, 625); (200, 200); (200, 505);
      (200, 625); (300, 100); (300, 200); (300, 415); (300, 625);
      (400, 335); (400, 425); (500, 200); (500, 100); (500, 425);
      (500, 625); (600, 415); (600, 525); (700, 200); (800, 200);
      (800, 425); (800, 535); (900, 325); (900, 425); (900, 625);
      (1000, 100); (1000, 200); (1000, 425) ].

Definition the_walls : list Wall :=
  [ Wall_init 50 50 1000 5;
    Wall_init 1050 50 5 550;
    Wall_init 50 700 1000 5;
    Wall_init 50 50 5 650;
    Wall_init 150 150 5 550;
    Wall_init 250 150 700 5;
    Wall_init 250 150 5 250;
    Wall_init 250 500 5 100;
    Wall_init 250 600 100 5;
    Wall_init 350 500 5 100;
    Wall_init 350 250 5 150;
    Wall_init 450 150 5 450;
    Wall_init 450 600 300 5;
    Wall_init 550 500 300 5;
    Wall_init 850 500 5 200;
    Wall_init 550 150 5 250;
    Wall_init 650 250 5 250;
    Wall_init 750 150 5 250;
    Wall_init 850 250 5 150;
    Wall_init 850 250 200 5;
    Wall_init 950 400 5 200 ].

(** [initialise_game_objects()]: every global is assigned anew; the two
    locals of [main] are not globals and are left alone. *)
Definition initialise_game_objects (img : Images) (g : Game) : Game :=
  mkGame Scoreboard_init
         (Player_init img (100, 200) 3)
         []
         (the_monsters img)
         (the_coins img)
         the_walls
         ""
         (current_game_state g) (running g).

(** ** The main loop *)

Inductive Key : Type := K_q | K_r | K_SPACE | K_other.

Inductive Event : Type :=
| QUIT
| KEYDOWN (key : Key)
| OTHER_EVENT.

(** What a frame puts on the display. *)
Inductive Screen : Type :=
| NoScreen
| StartScreen
| PlayingScreen (shown : Game)
| GameOverScreen (reason : string) (ghosts coins score : Z).

(** Lines 469-479: the space bar during play. *)
Definition place_portal (img : Images) (g : Game) : Game :=
  if 0 <? portals_remaining (scoreboard g) then
    let (new_portal, g) :=
      Portal_init img (centerx (player_rect (player_group g)),
                       centery (player_rect (player_group g))) g in
    with_portals (portals_group g ++ [new_portal]) g
  else g.

Definition restart (img : Images) (g : Game) : Game :=
  set_game_state GAME_STATE_PLAYING "" (initialise_game_objects img g).

(** Lines 455-484: a key goes down. *)
Definition on_keydown (img : Images) (key : Key) (g : Game) : Game :=
  let g := match key with K_q => with_running false g | _ => g end in
  match current_game_state g with
  | GAME_STATE_START =>
      match key with
      | K_SPACE | K_r => restart img g
      | _ => g
      end
  | GAME_STATE_PLAYING =>
      let g := match key with K_r => restart img g | _ => g end in
      match key with
      | K_SPACE => place_portal img g
      | _ => g
      end
  | GAME_STATE_GAME_OVER =>
      match key with
      | K_r => restart img g
      | _ => g
      end
  end.

Definition on_event (img : Images) (g : Game) (event : Event) : Game :=
  match event with
  | QUIT => with_running false g
  | KEYDOWN key => on_keydown img key g
  | OTHER_EVENT => g
  end.

Definition playing (g : Game) : bool :=
  GameState_eqb (current_game_state g) GAME_STATE_PLAYING.

(** Lines 494-538: one frame of play.  [coins_group.update()] runs the
    [update] that [Coin] inherits from [Sprite], which does nothing. *)
Definition playing_frame (keys : Keys) (g : Game) : Game * Screen :=
  let g := Player_update keys g in
  if playing g then
    let g := monsters_group_update g in
    if playing g then
      let g := portals_group_update g in
      let g := Scoreboard_update g in
      if playing g then (g, PlayingScreen g) else (g, NoScreen)
    else (g, NoScreen)
  else (g, NoScreen).

(** Lines 448-542: the body of [while running]. *)
Definition frame (img : Images) (events : list Event) (keys : Keys)
    (g : Game) : Game * Screen :=
  let g := fold_left (on_event img) events g in
  match current_game_state g with
  | GAME_STATE_START => (g, StartScreen)
  | GAME_STATE_PLAYING => playing_frame keys g
  | GAME_STATE_GAME_OVER =>
      (g, GameOverScreen (game_over_reason_message g)
                         (ghosts_busted (scoreboard g))
                         (coins_collected (scoreboard g))
                         (points (scoreboard g)))
  end.

(** Lines 431-447: [main] before its loop. *)
Definition main_start (img : Images) : Game :=
  mkGame Scoreboard_init
         (Player_init img (100, 200) 3)
         []
         (the_monsters img)
         (the_coins img)
         the_walls
         ""
         GAME_STATE_START true.

(** [main]: the frames are run on the inputs of each frame (the events
    of the queue and the keys held) until [running] is false. *)
Fixpoint main_loop (img : Images) (inputs : list (list Event * Keys))
    (g : Game) : Game * list Screen :=
  match inputs with
  | [] => (g, [])
  | (events, keys) :: later =>
      if running g then
        let (g1, s) := frame img events keys g in
        let (g2, ss) := main_loop img later g1 in
        (g2, s :: ss)
      else (g, [])
  end.

Definition main (img : Images) (inputs : list (list Event * Keys))
  : Game * list Screen :=
  main_loop img inputs (main_start img).

(** ** Observations used by the properties *)

(** The part of [Game] that [initialise_game_objects] assigns: the
    module's globals, without the two locals of [main]. *)
Definition world (g : Game)
  : Scoreboard * Player * list Portal * list Monster * list Coin
    * list Wall * string :=
  (scoreboard g, player_group g, portals_group g, monsters_group g,
   coins_group g, walls_group g, game_over_reason_message g).

(** Image sizes for the concrete games below.  The image files are not
    among the sources, so these sizes are an example and not a fact
    about the images the game ships with. *)
Definition sample_images : Images :=
  mkImages (50, 86) (50, 70) (40, 40) (50, 70).

Definition no_keys : Keys := mkKeys false false false false.

(** The portal budget. *)
Definition budget (g : Game) : Z := portals_remaining (scoreboard g).

(** One frame in which nothing is pressed and no event arrives. *)
Definition idle : list Event * Keys := ([], no_keys).

(** The game after the space bar has started it and then asked for six
    portals: the budget of five is spent. *)
Definition budget_spent_inputs : list (list Event * Keys) :=
  [ ([KEYDOWN K_SPACE], no_keys);
    ([KEYDOWN K_SPACE; KEYDOWN K_SPACE; KEYDOWN K_SPACE;
      KEYDOWN K_SPACE; KEYDOWN K_SPACE; KEYDOWN K_SPACE], no_keys) ].

(** A game in play whose player stands one pixel past the exit line
    (right edge 1051), the rest of the world as new. *)
Definition past_the_exit : Game :=
  with_player (mkPlayer (mkRect 1001 600 50 86) 3 (100, 200))
    (restart sample_images (main_start sample_images)).

(** The first monster of the layout, as built for [sample_images]. *)
Definition first_monster : Monster :=
  Monster_init sample_images (220, 100) (PyFloat 0x1.2666666666666p+1)
               "horizontal".

(** The sprites and the scoreboard: what the updates read and write
    besides the state and its message. *)
Definition entities (g : Game)
  : Scoreboard * Player * list Portal * list Monster * list Coin * list Wall :=
  (scoreboard g, player_group g, portals_group g, monsters_group g,
   coins_group g, walls_group g).

(** The monster [update] leaves when it has caught the player. *)
Definition stopped (m : Monster) : Monster :=
  mkMonster (monster_rect m) (PyInt 0) (direction m).

Definition caught_message : string := "You were discombobulated by a ghost!".

(** A game in play with the walls of the layout, the player where a new
    game puts it, a first monster on the player, a second monster two
    pixels short of a portal, and no coin. *)
Definition ambusher : Monster :=
  mkMonster (mkRect 100 160 50 70) (PyInt 2) "horizontal".

Definition stroller : Monster :=
  mkMonster (mkRect 570 420 50 70) (PyInt 2) "horizontal".

Definition door : Portal := mkPortal (mkRect 621 430 50 70).

Definition ambush : Game :=
  mkGame Scoreboard_init
         (Player_init sample_images (100, 200) 3)
         [door]
         [ambusher; stroller]
         []
         the_walls
         ""
         GAME_STATE_PLAYING true.

(** The timer.  [time_after k] is what [time_left] holds after [k]
    scoreboard updates of one game; [countdown n t] checks, by running
    the subtraction, that the next [n] values from [t] are above 0 and
    do not go up, and that the value after them is at or below 0. *)
Definition tick_down (t : float) : float := (t - frame_time)%float.

Definition time_after (k : nat) : float := Nat.iter k tick_down 100%float.

Fixpoint countdown (n : nat) (t : float) : bool :=
  match n with
  | O => (t <=? 0)%float
  | S n' =>
      (0 <? t)%float && negb (t <=? 0)%float && (t <=? t)%float
      && (tick_down t <=? t)%float && countdown n' (tick_down t)
  end.

(** The number of scoreboard updates that exhaust the timer. *)
Definition last_tick : nat := Z.to_nat 6001.

Definition clock (g : Game) : float := time_left (scoreboard g).

Definition time_message : string := "You ran out of time!".

Definition exit_message : string := "You made it out alive!".

(** [time_left] is one of the values of the countdown, and the last of
    them is not met while the game is in play. *)
Definition timer_inv (g : Game) : Prop :=
  exists k, (k <= last_tick)%nat
            /\ clock g = time_after k
            /\ (current_game_state g = GAME_STATE_PLAYING ->
                (k < last_tick)%nat).

(** The same game without the first monster: one monster, two pixels
    short of the one portal. *)
Definition stroll : Game :=
  mkGame Scoreboard_init
         (Player_init sample_images (100, 200) 3)
         [door]
         [stroller]
         []
         the_walls
         ""
         GAME_STATE_PLAYING true.

(** A game in play with no monster, the player where a new game puts it
    (its rectangle is 75..125 by 157..243) and three coins: two under
    the player, one away from it. *)
Definition near_coin : Coin := mkCoin (mkRect 80 150 40 40).
Definition next_coin : Coin := mkCoin (mkRect 80 200 40 40).
Definition far_coin : Coin := mkCoin (mkRect 300 300 40 40).

Definition two_coins : Game :=
  mkGame Scoreboard_init
         (Player_init sample_images (100, 200) 3)
         []
         []
         [near_coin; next_coin; far_coin]
         the_walls
         ""
         GAME_STATE_PLAYING true.

(** A game in play with one coin under the player and one monster on
    the player. *)
Definition last_coin : Game :=
  mkGame Scoreboard_init
         (Player_init sample_images (100, 200) 3)
         []
         [ambusher]
         [near_coin]
         the_walls
         ""
         GAME_STATE_PLAYING true.

(** [points] agrees with the two counters it is computed from. *)
Definition tallied (sb : Scoreboard) : Prop :=
  points sb = coins_collected sb * 100 + ghosts_busted sb * 50.

(** What the scoreboard of a running game satisfies between frames, and
    what a screen shows: the score agrees with the counters, short of a
    game that a ghost has ended. *)
Definition score_inv (g : Game) : Prop :=
  tallied (scoreboard g)
  \/ (current_game_state g = GAME_STATE_GAME_OVER
      /\ game_over_reason_message g = caught_message).

Definition screen_ok (s : Screen) : Prop :=
  match s with
  | PlayingScreen shown => tallied (scoreboard shown)
  | GameOverScreen reason ghosts coins score =>
      reason = caught_message \/ score = coins * 100 + ghosts * 50
  | _ => True
  end.

(** No monster of the group is on a portal of the group. *)
Definition apart (g : Game) : Prop :=
  forall m p, In m (monsters_group g) -> In p (portals_group g) ->
              colliderect (monster_rect m) (portal_rect p) = false.

Definition count (A : Type) (l : list A) : Z := Z.of_nat (List.length l).
Arguments count {A} l.

(** Inputs of whole runs.  The space bar starts the game; the player
    walks up for twelve frames and stops one pixel below the coin at
    (100, 100), in the corridor the first monster patrols. *)
Definition begin : list Event * Keys := ([KEYDOWN K_SPACE], no_keys).
Definition hold_up : list Event * Keys := ([], mkKeys false false true false).
Definition hold_down : list Event * Keys :=
  ([], mkKeys false false false true).

Definition to_the_corridor : list (list Event * Keys) :=
  begin :: repeat hold_up 12.

(** The player waits there while the monster goes to the far wall and
    comes back, steps onto the coin in the frame after the monster has
    reached it, and the loop runs one more frame. *)
Definition caught_on_the_coin : list (list Event * Keys) :=
  to_the_corridor ++ repeat idle 682 ++ [hold_up; idle].

(** The player drops a portal in the corridor, walks back down out of
    the monster's way, and waits. *)
Definition trap_in_the_corridor : list (list Event * Keys) :=
  to_the_corridor ++ [([KEYDOWN K_SPACE], mkKeys false false false true)]
    ++ repeat hold_down 5 ++ repeat idle 676.

(** ** Observations used by the further properties *)

(** [max(0, self.time_left)], the time [Scoreboard.draw] formats on
    line 249: Python's [max] keeps its first argument unless the second
    compares greater. *)
Definition shown_time (self : Scoreboard) : number :=
  if (0 <? time_left self)%float then PyFloat (time_left self)
  else PyInt 0.

(** A rectangle that meets no wall. *)
Definition clear_of (walls : list Wall) (r : Rect) : Prop :=
  spritecollideany wall_rect r walls = false.

(** [m] is the monster [m0] somewhere on its patrol: the same size and
    direction, the same line, and the speed of [m0], its opposite, or
    0. *)
Definition patrols (m0 m : Monster) : Prop :=
  direction m = direction m0
  /\ w (monster_rect m) = w (monster_rect m0)
  /\ h (monster_rect m) = h (monster_rect m0)
  /\ (direction m0 = "horizontal" -> y (monster_rect m) = y (monster_rect m0))
  /\ (direction m0 = "vertical" -> x (monster_rect m) = x (monster_rect m0))
  /\ (speed m = speed m0 \/ speed m = neg (speed m0) \/ speed m = PyInt 0).

(** The three messages a game can end with. *)
Definition ending (message : string) : Prop :=
  message = exit_message \/ message = caught_message
  \/ message = time_message.

(** The counters are not negative and the score does not overstate
    them. *)
Definition not_overstated (sb : Scoreboard) : Prop :=
  0 <= coins_collected sb /\ 0 <= ghosts_busted sb
  /\ 0 <= points sb <= coins_collected sb * 100 + ghosts_busted sb * 50.

(** The events that ask the loop to stop. *)
Definition quits (event : Event) : Prop :=
  event = QUIT \/ event = KEYDOWN K_q.

(** Is some monster of the group on the player. *)
Definition monster_on_player (g : Game) : bool :=
  existsb (fun m => colliderect (player_rect (player_group g))
                                (monster_rect m))
          (monsters_group g).

(** Coins are only removed: the counter is not negative, it and the
    coins left are at most the 28 of the layout, and every coin left is
    one of them. *)
Definition coins_kept (img : Images) (g : Game) : Prop :=
  0 <= coins_collected (scoreboard g)
  /\ coins_collected (scoreboard g) + count (coins_group g) <= 28
  /\ (forall c, In c (coins_group g) -> In c (the_coins img)).





(** * Properties *)

(** ** Numbers *)

(** A speed that is an int moves the rectangle by that many pixels. *)
Lemma to_coord_int (n k : Z) : to_coord (int_add n (PyInt k)) = n + k.
Proof. reflexivity. Qed.

(** A speed that is a float moves it by whole pixels too, since the
    sum is cut towards zero: 2 to the right and 3 to the left for the
    speed 2.3 of the first monster. *)
Example to_coord_float :
  to_coord (int_add 100 (speed first_monster)) = 102
  /\ to_coord (int_add 100 (neg (speed first_monster))) = 97.
Proof. vm_compute. split; reflexivity. Qed.

(** ** A new game *)

Lemma initialise_game_objects_world (img : Images) (g : Game) :
  world (initialise_game_objects img g) = world (main_start img).
Proof. reflexivity. Qed.

Lemma restart_world (img : Images) (g : Game) :
  world (restart img g) = world (main_start img).
Proof. reflexivity. Qed.

Lemma restart_state (img : Images) (g : Game) :
  current_game_state (restart img g) = GAME_STATE_PLAYING.
Proof. reflexivity. Qed.

Lemma keydown_r_restarts (img : Images) (g : Game) :
  on_keydown img K_r g = restart img g.
Proof.
  unfold on_keydown.
  destruct (current_game_state g) eqn:E; try reflexivity.
Qed.

(** C6.  A world built by [initialise_game_objects] has one player, 21
    walls, 12 monsters, 28 coins, no portal and the scoreboard
    (0, 100.0, 0, 5, 0); it is the world [main] starts with, whatever
    the game it replaces; the R key builds it in every state, and so
    does the space bar on the start screen. *)
Theorem fresh_world_census (img : Images) (g : Game) :
  let fresh := initialise_game_objects img g in
  player_group fresh = Player_init img (100, 200) 3
  /\ List.length (walls_group fresh) = 21%nat
  /\ List.length (monsters_group fresh) = 12%nat
  /\ List.length (coins_group fresh) = 28%nat
  /\ portals_group fresh = []
  /\ scoreboard fresh = mkScoreboard 0 100 0 5 0
  /\ world fresh = world (main_start img)
  /\ world (on_keydown img K_r g) = world (main_start img)
  /\ current_game_state (on_keydown img K_r g) = GAME_STATE_PLAYING
  /\ (current_game_state g = GAME_STATE_START ->
      world (on_keydown img K_SPACE g) = world (main_start img)
      /\ current_game_state (on_keydown img K_SPACE g) = GAME_STATE_PLAYING).
Proof.
  cbv zeta.
  repeat (split; [reflexivity|]).
  rewrite keydown_r_restarts.
  repeat (split; [reflexivity|]).
  intros Hstart. unfold on_keydown. rewrite Hstart. split; reflexivity.
Qed.

Lemma fresh_world_census_witness :
  current_game_state (main_start sample_images) = GAME_STATE_START
  /\ List.length (coins_group
       (initialise_game_objects sample_images (main_start sample_images)))
     = 28%nat
  /\ world (on_keydown sample_images K_SPACE (main_start sample_images))
     = world (main_start sample_images).
Proof.
  destruct (fresh_world_census sample_images (main_start sample_images))
    as (_ & _ & _ & Hcoins & _ & _ & _ & _ & _ & Hbegin).
  split; [reflexivity|].
  split; [exact Hcoins|].
  apply Hbegin. reflexivity.
Defined.

(** ** Invariants of the main loop *)

Lemma main_loop_preserves (img : Images) (P : Game -> Prop) :
  (forall events keys g, P g -> P (fst (frame img events keys g))) ->
  forall inputs g, P g -> P (fst (main_loop img inputs g)).
Proof.
  intros Hframe inputs.
  induction inputs as [|[events keys] later IH]; intros g Hg; [exact Hg|].
  cbn [main_loop].
  destruct (running g); [|exact Hg].
  specialize (Hframe events keys g Hg).
  destruct (frame img events keys g) as [g1 s].
  specialize (IH g1 Hframe).
  destruct (main_loop img later g1) as [g2 ss]. exact IH.
Qed.

Lemma events_preserve (img : Images) (P : Game -> Prop) :
  (forall g event, P g -> P (on_event img g event)) ->
  forall events g, P g -> P (fold_left (on_event img) events g).
Proof.
  intros Hev events.
  induction events as [|e events IH]; intros g Hg; [exact Hg|].
  cbn [fold_left]. apply IH, Hev, Hg.
Qed.

Lemma frame_preserves (img : Images) (P : Game -> Prop) :
  (forall g event, P g -> P (on_event img g event)) ->
  (forall keys g, current_game_state g = GAME_STATE_PLAYING ->
                  P g -> P (fst (playing_frame keys g))) ->
  forall events keys g, P g -> P (fst (frame img events keys g)).
Proof.
  intros Hev Hplay events keys g Hg.
  unfold frame.
  pose proof (events_preserve img P Hev events g Hg) as H.
  destruct (current_game_state (fold_left (on_event img) events g)) eqn:E;
    [exact H | apply Hplay; assumption | exact H].
Qed.

(** ** The scoreboard through one frame of play *)

Lemma Monster_update_budget (m : Monster) (g : Game) :
  budget (snd (Monster_update m g)) = budget g.
Proof.
  unfold Monster_update.
  repeat match goal with |- context [if ?c then _ else _] => destruct c end;
    reflexivity.
Qed.

Lemma update_each_budget (sprites : list Monster) (g : Game) :
  budget (snd (update_each sprites g)) = budget g.
Proof.
  revert g. induction sprites as [|m rest IH]; intros g; [reflexivity|].
  cbn [update_each].
  pose proof (Monster_update_budget m g) as Hm.
  destruct (Monster_update m g) as [f g1].
  pose proof (IH g1) as Hrest.
  destruct (update_each rest g1) as [ms g2].
  cbn [snd] in *. congruence.
Qed.

Lemma monsters_group_update_budget (g : Game) :
  budget (monsters_group_update g) = budget g.
Proof.
  unfold monsters_group_update.
  pose proof (update_each_budget (monsters_group g) g) as H.
  destruct (update_each (monsters_group g) g) as [ms g']. exact H.
Qed.

Lemma Portal_update_budget (p : Portal) (g : Game) :
  budget (Portal_update p g) = budget g.
Proof.
  unfold Portal_update.
  destruct (truthy _); reflexivity.
Qed.

Lemma portals_group_update_budget (g : Game) :
  budget (portals_group_update g) = budget g.
Proof.
  unfold portals_group_update.
  generalize (portals_group g) as ps. intros ps. revert g.
  induction ps as [|p ps IH]; intros g; [reflexivity|].
  cbn [fold_left]. rewrite IH. apply Portal_update_budget.
Qed.

Lemma Player_update_budget (keys : Keys) (g : Game) :
  budget (Player_update keys g) = budget g.
Proof.
  unfold Player_update.
  repeat match goal with |- context [if ?c then _ else _] => destruct c end;
    reflexivity.
Qed.

Lemma Scoreboard_update_budget (g : Game) :
  budget (Scoreboard_update g) = budget g.
Proof.
  unfold Scoreboard_update.
  destruct (is_time_up _); reflexivity.
Qed.

Lemma playing_frame_budget (keys : Keys) (g : Game) :
  budget (fst (playing_frame keys g)) = budget g.
Proof.
  unfold playing_frame.
  repeat match goal with
         | |- context [if playing ?a then _ else _] => destruct (playing a)
         end; cbn [fst];
    rewrite ?Scoreboard_update_budget, ?portals_group_update_budget,
      ?monsters_group_update_budget, ?Player_update_budget; reflexivity.
Qed.

(** ** The portal budget *)

Lemma place_portal_budget (img : Images) (g : Game) :
  budget (place_portal img g)
  = if 0 <? budget g then budget g - 1 else budget g.
Proof.
  unfold place_portal, budget.
  destruct (0 <? portals_remaining (scoreboard g)); reflexivity.
Qed.

Lemma on_event_budget (img : Images) (g : Game) (event : Event) :
  world (on_event img g event) = world (main_start img)
  \/ budget (on_event img g event)
     = (if 0 <? budget g then budget g - 1 else budget g)
  \/ budget (on_event img g event) = budget g.
Proof.
  destruct event as [|key|]; cbn [on_event]; [right; right; reflexivity| |].
  - unfold on_keydown.
    destruct key;
      match goal with
      | |- context [current_game_state ?a] =>
          destruct (current_game_state a) eqn:E
      end;
      try (left; reflexivity);
      try (right; right; reflexivity).
    right; left. apply place_portal_budget.
  - right; right; reflexivity.
Qed.

Lemma budget_in_range_on_event (img : Images) (g : Game) (event : Event) :
  0 <= budget g <= 5 -> 0 <= budget (on_event img g event) <= 5.
Proof.
  intros Hg.
  destruct (on_event_budget img g event) as [Hw | [Hb | Hb]].
  - unfold world in Hw.
    assert (Hs : scoreboard (on_event img g event)
                 = scoreboard (main_start img)) by congruence.
    unfold budget. rewrite Hs. cbn. lia.
  - rewrite Hb. destruct (0 <? budget g) eqn:E; [apply Z.ltb_lt in E|]; lia.
  - rewrite Hb. exact Hg.
Qed.

Lemma budget_in_range (img : Images) (inputs : list (list Event * Keys)) :
  0 <= budget (fst (main img inputs)) <= 5.
Proof.
  unfold main.
  apply (main_loop_preserves img (fun g => 0 <= budget g <= 5)).
  - apply (frame_preserves img (fun g => 0 <= budget g <= 5)).
    + apply budget_in_range_on_event.
    + intros keys g _ Hg. rewrite playing_frame_budget. exact Hg.
  - cbn. lia.
Qed.

(** C9.  [new_portal] subtracts one with no test, and constructing a
    [Portal] always calls it, so a portal constructed on a budget of 0
    leaves -1; the test [portals_remaining > 0] at the one place that
    constructs portals is what refuses the construction and keeps the
    budget of a running game from going below 0. *)
Theorem new_portal_has_no_lower_bound (img : Images) :
  (forall self : Scoreboard,
      portals_remaining (new_portal self) = portals_remaining self - 1)
  /\ (forall position g,
         budget (snd (Portal_init img position g)) = budget g - 1)
  /\ (forall position g,
         budget g = 0 -> budget (snd (Portal_init img position g)) = -1)
  /\ (forall g, budget g <= 0 -> place_portal img g = g)
  /\ (forall g, 0 <= budget g -> 0 <= budget (place_portal img g))
  /\ (forall inputs, 0 <= budget (fst (main img inputs))).
Proof.
  split; [reflexivity|].
  split; [reflexivity|].
  split.
  { intros position g H. change (budget g - 1 = -1). lia. }
  split.
  { intros g H. unfold place_portal. fold (budget g).
    destruct (0 <? budget g) eqn:E; [apply Z.ltb_lt in E; lia | reflexivity]. }
  split.
  { intros g H. rewrite place_portal_budget.
    destruct (0 <? budget g) eqn:E; [apply Z.ltb_lt in E|]; lia. }
  intros inputs. apply budget_in_range.
Qed.

Lemma new_portal_has_no_lower_bound_witness :
  budget (fst (main sample_images budget_spent_inputs)) = 0
  /\ budget (snd (Portal_init sample_images (100, 200)
                    (fst (main sample_images budget_spent_inputs)))) = -1
  /\ place_portal sample_images (fst (main sample_images budget_spent_inputs))
     = fst (main sample_images budget_spent_inputs).
Proof.
  destruct (new_portal_has_no_lower_bound sample_images)
    as (_ & _ & Hneg & Hguard & _).
  split; [vm_compute; reflexivity|].
  split.
  - apply Hneg. vm_compute. reflexivity.
  - apply Hguard. vm_compute. discriminate.
Defined.

(** C7.  In a running game the budget stays between 0 and 5.  The space
    bar during play does nothing at all when the budget is 0; otherwise
    it adds one portal at the end of the portals group and takes one
    from the budget, and changes nothing else.  The portal has the size
    of the door image and the centre of the player's rectangle: its
    left edge is the player's x plus half the player's width minus half
    the door's width, and likewise for its top.  No other step of the
    loop changes the budget, short of building a new world. *)
Theorem portal_placement (img : Images) (inputs : list (list Event * Keys)) :
  let g := fst (main img inputs) in
  0 <= budget g <= 5
  /\ (forall keys, budget (fst (playing_frame keys g)) = budget g)
  /\ (forall event,
         world (on_event img g event) = world (main_start img)
         \/ budget (on_event img g event) <= budget g)
  /\ (current_game_state g = GAME_STATE_PLAYING ->
      let g' := on_keydown img K_SPACE g in
      let player := player_rect (player_group g) in
      let door_w := fst (door_png img) in
      let door_h := snd (door_png img) in
      (budget g = 0 -> g' = g)
      /\ (budget g <> 0 ->
          portals_group g'
          = portals_group g
              ++ [mkPortal (get_rect (door_png img)
                              (centerx (player_rect (player_group g)),
                               centery (player_rect (player_group g))))]
          /\ portals_group g'
             = portals_group g
                 ++ [mkPortal
                       (mkRect
                          (x player + Z.quot (w player) 2 - Z.quot door_w 2)
                          (y player + Z.quot (h player) 2 - Z.quot door_h 2)
                          door_w door_h)]
          /\ (forall d,
                 let p := portal_rect (last (portals_group g') d) in
                 w p = door_w /\ h p = door_h
                 /\ x p + Z.quot (w p) 2 = x player + Z.quot (w player) 2
                 /\ y p + Z.quot (h p) 2 = y player + Z.quot (h player) 2)
          /\ budget g' = budget g - 1
          /\ scoreboard g' = new_portal (scoreboard g)
          /\ player_group g' = player_group g
          /\ monsters_group g' = monsters_group g
          /\ coins_group g' = coins_group g
          /\ walls_group g' = walls_group g
          /\ current_game_state g' = GAME_STATE_PLAYING)).
Proof.
  cbv zeta.
  pose proof (budget_in_range img inputs) as Hrange.
  set (g := fst (main img inputs)) in *.
  split; [exact Hrange|].
  split; [intros keys; apply playing_frame_budget|].
  split.
  { intros event.
    destruct (on_event_budget img g event) as [Hw | [Hb | Hb]];
      [left; exact Hw | right | right; lia].
    rewrite Hb. destruct (0 <? budget g); lia. }
  intros Hplaying.
  unfold on_keydown. rewrite Hplaying. unfold place_portal.
  fold (budget g).
  destruct (0 <? budget g) eqn:E.
  - apply Z.ltb_lt in E. split; [lia|].
    intros _.
    cbn [Portal_init portals_group with_portals with_scoreboard scoreboard
         player_group monsters_group coins_group walls_group
         current_game_state with_running].
    split; [reflexivity|].
    split; [reflexivity|].
    split.
    { intros d. rewrite last_last.
      unfold centerx, centery, get_rect. cbn [portal_rect x y w h fst snd].
      repeat split; lia. }
    rewrite Hplaying. repeat split; reflexivity.
  - apply Z.ltb_ge in E. split; [reflexivity|]. lia.
Qed.

Lemma portal_placement_witness :
  let spent := fst (main sample_images budget_spent_inputs) in
  let g := fst (main sample_images [([KEYDOWN K_SPACE], no_keys)]) in
  (current_game_state spent = GAME_STATE_PLAYING
   /\ budget spent = 0
   /\ on_keydown sample_images K_SPACE spent = spent)
  /\ (current_game_state g = GAME_STATE_PLAYING
      /\ budget g = 5
      /\ player_rect (player_group g) = mkRect 75 157 50 86
      /\ portals_group (on_keydown sample_images K_SPACE g)
         = [mkPortal (mkRect 75 165 50 70)]
      /\ budget (on_keydown sample_images K_SPACE g) = 4).
Proof.
  cbv zeta. split.
  - destruct (portal_placement sample_images budget_spent_inputs)
      as (_ & _ & _ & Hspace).
    split; [vm_compute; reflexivity|].
    split; [vm_compute; reflexivity|].
    apply Hspace; vm_compute; reflexivity.
  - destruct (portal_placement sample_images [([KEYDOWN K_SPACE], no_keys)])
      as (_ & _ & _ & Hspace).
    cbv zeta in Hspace.
    assert (Hplaying : current_game_state
                         (fst (main sample_images
                                 [([KEYDOWN K_SPACE], no_keys)]))
                       = GAME_STATE_PLAYING) by (vm_compute; reflexivity).
    assert (Hbudget : budget (fst (main sample_images
                                     [([KEYDOWN K_SPACE], no_keys)])) = 5)
      by (vm_compute; reflexivity).
    assert (Hplayer : player_rect (player_group
                        (fst (main sample_images
                                [([KEYDOWN K_SPACE], no_keys)])))
                      = mkRect 75 157 50 86) by (vm_compute; reflexivity).
    destruct (Hspace Hplaying) as (_ & Hplace).
    destruct Hplace as (_ & Hrect & _ & Hless & _);
      [rewrite Hbudget; discriminate|].
    split; [exact Hplaying|]. split; [exact Hbudget|].
    split; [exact Hplayer|]. split.
    + rewrite Hrect, Hplayer. vm_compute. reflexivity.
    + rewrite Hless, Hbudget. reflexivity.
Defined.

(** ** The exit *)

(** C5.  When the player's right edge is past 1050 as a frame of play
    begins, the frame only sets the state to game over with the exit
    message: the player, the coins, the monsters, the portals and the
    scoreboard are what they were, and nothing is drawn. *)
Theorem exit_ends_the_frame (keys : Keys) (g : Game) :
  1050 < right (player_rect (player_group g)) ->
  playing_frame keys g
  = (set_game_state GAME_STATE_GAME_OVER "You made it out alive!" g, NoScreen)
  /\ let g' := fst (playing_frame keys g) in
     current_game_state g' = GAME_STATE_GAME_OVER
     /\ game_over_reason_message g' = "You made it out alive!"
     /\ player_group g' = player_group g
     /\ coins_group g' = coins_group g
     /\ monsters_group g' = monsters_group g
     /\ portals_group g' = portals_group g
     /\ scoreboard g' = scoreboard g
     /\ snd (playing_frame keys g) = NoScreen.
Proof.
  intros Hexit.
  assert (E : playing_frame keys g
              = (set_game_state GAME_STATE_GAME_OVER
                                "You made it out alive!" g, NoScreen)).
  { unfold playing_frame, Player_update.
    apply Z.ltb_lt in Hexit. rewrite Hexit. reflexivity. }
  rewrite E. repeat split; reflexivity.
Qed.

Lemma exit_ends_the_frame_witness :
  1050 < right (player_rect (player_group past_the_exit))
  /\ current_game_state past_the_exit = GAME_STATE_PLAYING
  /\ frame sample_images [] (mkKeys false true false false) past_the_exit
     = (set_game_state GAME_STATE_GAME_OVER "You made it out alive!"
          past_the_exit, NoScreen).
Proof.
  assert (H : 1050 < right (player_rect (player_group past_the_exit)))
    by (vm_compute; reflexivity).
  split; [exact H|].
  split; [reflexivity|].
  exact (proj1 (exit_ends_the_frame (mkKeys false true false false)
                  past_the_exit H)).
Defined.

(** ** One monster *)

Lemma set_x_back (r : Rect) (v : Z) : set_x (set_x r v) (x r) = r.
Proof. destruct r; reflexivity. Qed.

Lemma set_y_back (r : Rect) (v : Z) : set_y (set_y r v) (y r) = r.
Proof. destruct r; reflexivity. Qed.

Lemma truthy_singleton (A : Type) (rect : A -> Rect) (sprite : Rect) (a : A) :
  truthy (spritecollide rect sprite [a]) = colliderect sprite (rect a).
Proof.
  unfold spritecollide. cbn [filter].
  destruct (colliderect sprite (rect a)); reflexivity.
Qed.

Lemma after_dokill_incl (A : Type) (rect : A -> Rect) (sprite : Rect)
    (group : list A) (a : A) :
  In a (after_dokill rect sprite group) -> In a group.
Proof. unfold after_dokill. intros H. apply filter_In in H. apply H. Qed.

Lemma Portal_update_monsters (p : Portal) (g : Game) (m : Monster) :
  In m (monsters_group (Portal_update p g)) -> In m (monsters_group g).
Proof.
  unfold Portal_update.
  destruct (truthy _); cbn; [apply after_dokill_incl | trivial].
Qed.

Lemma portals_group_update_monsters (g : Game) (m : Monster) :
  In m (monsters_group (portals_group_update g)) -> In m (monsters_group g).
Proof.
  unfold portals_group_update.
  generalize (portals_group g) as ps. intros ps. revert g.
  induction ps as [|p ps IH]; intros g; [trivial|].
  cbn [fold_left]. intros H. apply IH in H.
  revert H. apply Portal_update_monsters.
Qed.

Lemma Player_update_monsters (keys : Keys) (g : Game) :
  monsters_group (Player_update keys g) = monsters_group g.
Proof.
  unfold Player_update.
  repeat match goal with |- context [if ?c then _ else _] => destruct c end;
    reflexivity.
Qed.

Lemma Scoreboard_update_monsters (g : Game) :
  monsters_group (Scoreboard_update g) = monsters_group g.
Proof.
  unfold Scoreboard_update. destruct (is_time_up _); reflexivity.
Qed.

Lemma Monster_update_on_player (self : Monster) (g : Game) :
  colliderect (player_rect (player_group g)) (monster_rect self) = true ->
  Monster_update self g
  = (Alive (stopped self),
     set_game_state GAME_STATE_GAME_OVER caught_message g).
Proof.
  intros Hhit. unfold Monster_update.
  rewrite truthy_singleton, Hhit. reflexivity.
Qed.




(** ** The monsters' phase *)

Lemma Monster_update_entities (m : Monster) (g g' : Game) :
  entities g = entities g' ->
  fst (Monster_update m g) = fst (Monster_update m g')
  /\ entities (snd (Monster_update m g)) = entities (snd (Monster_update m g')).
Proof.
  unfold entities. intros H. injection H as Hsb Hp Hps Hms Hcs Hws.
  unfold Monster_update. rewrite Hp, Hws, Hps.
  destruct (truthy (spritecollide monster_rect _ [m]));
    [cbn; split; congruence|].
  destruct (truthy (spritecollide portal_rect _ _));
    cbn; split; congruence.
Qed.

Lemma update_each_entities (sprites : list Monster) (g g' : Game) :
  entities g = entities g' ->
  fst (update_each sprites g) = fst (update_each sprites g')
  /\ entities (snd (update_each sprites g))
     = entities (snd (update_each sprites g')).
Proof.
  revert g g'. induction sprites as [|m rest IH]; intros g g' H;
    [split; [reflexivity | exact H]|].
  cbn [update_each].
  destruct (Monster_update_entities m g g' H) as [Hf Hg].
  destruct (Monster_update m g) as [f g1].
  destruct (Monster_update m g') as [f' g1'].
  cbn [fst snd] in Hf, Hg. subst f'.
  destruct (IH g1 g1' Hg) as [Hms Hgs].
  destruct (update_each rest g1) as [ms g2].
  destruct (update_each rest g1') as [ms' g2'].
  cbn [fst snd] in *. split; congruence.
Qed.

Lemma Monster_update_state (m : Monster) (g : Game) :
  current_game_state (snd (Monster_update m g)) = GAME_STATE_GAME_OVER
  \/ current_game_state (snd (Monster_update m g)) = current_game_state g.
Proof.
  unfold Monster_update.
  repeat match goal with |- context [if ?c then _ else _] => destruct c end;
    cbn; auto.
Qed.

Lemma update_each_game_over (sprites : list Monster) (g : Game) :
  current_game_state g = GAME_STATE_GAME_OVER ->
  current_game_state (snd (update_each sprites g)) = GAME_STATE_GAME_OVER.
Proof.
  revert g. induction sprites as [|m rest IH]; intros g H; [exact H|].
  cbn [update_each].
  pose proof (Monster_update_state m g) as Hm.
  destruct (Monster_update m g) as [f g1]. cbn [snd] in Hm.
  assert (H1 : current_game_state g1 = GAME_STATE_GAME_OVER)
    by (destruct Hm; congruence).
  specialize (IH g1 H1).
  destruct (update_each rest g1) as [ms g2]. exact IH.
Qed.

Lemma Monster_update_player (m : Monster) (g : Game) :
  player_group (snd (Monster_update m g)) = player_group g.
Proof.
  unfold Monster_update.
  repeat match goal with |- context [if ?c then _ else _] => destruct c end;
    reflexivity.
Qed.

Lemma update_each_player (sprites : list Monster) (g : Game) :
  player_group (snd (update_each sprites g)) = player_group g.
Proof.
  revert g. induction sprites as [|m rest IH]; intros g; [reflexivity|].
  cbn [update_each].
  pose proof (Monster_update_player m g) as Hm.
  destruct (Monster_update m g) as [f g1].
  pose proof (IH g1) as Hrest.
  destruct (update_each rest g1) as [ms g2].
  cbn [snd] in *. congruence.
Qed.

Lemma update_each_app (before later : list Monster) (g : Game) :
  update_each (before ++ later) g
  = (fst (update_each before g)
       ++ fst (update_each later (snd (update_each before g))),
     snd (update_each later (snd (update_each before g)))).
Proof.
  revert g. induction before as [|m before IH]; intros g.
  - cbn. destruct (update_each later g); reflexivity.
  - cbn [app update_each].
    destruct (Monster_update m g) as [f g1].
    rewrite IH.
    destruct (update_each before g1) as [ms g2]. cbn [fst snd].
    rewrite app_assoc. reflexivity.
Qed.

(** C10.  When a monster of the group catches the player, the loop over
    the group goes on: the monsters after it are updated by the same
    [Monster.update], with the same fates and the same effect on the
    portals and the scoreboard as if the state had not changed, and the
    state is still game over when the loop ends.  The frame then stops:
    the portals and the scoreboard are not updated and nothing is
    drawn. *)
Theorem later_monsters_still_update
    (before later : list Monster) (m : Monster) (g : Game) :
  colliderect (player_rect (player_group g)) (monster_rect m) = true ->
  let g1 := snd (update_each before g) in
  let caught := set_game_state GAME_STATE_GAME_OVER caught_message g1 in
  update_each (before ++ m :: later) g
  = (fst (update_each before g) ++ stopped m :: fst (update_each later caught),
     snd (update_each later caught))
  /\ fst (update_each later caught) = fst (update_each later g1)
  /\ entities (snd (update_each later caught))
     = entities (snd (update_each later g1))
  /\ current_game_state (snd (update_each later caught))
     = GAME_STATE_GAME_OVER
  /\ (forall keys g0,
         playing (Player_update keys g0) = true ->
         playing (monsters_group_update (Player_update keys g0)) = false ->
         playing_frame keys g0
         = (monsters_group_update (Player_update keys g0), NoScreen)).
Proof.
  intros Hhit. cbv zeta.
  split.
  { rewrite update_each_app. f_equal.
    - f_equal. cbn [update_each]. unfold Monster_update at 1.
      rewrite truthy_singleton, update_each_player, Hhit.
      destruct (update_each later _) as [ms g2]. reflexivity.
    - cbn [update_each]. unfold Monster_update at 1.
      rewrite truthy_singleton, update_each_player, Hhit.
      destruct (update_each later _) as [ms g2]. reflexivity. }
  split; [apply update_each_entities; reflexivity|].
  split; [apply update_each_entities; reflexivity|].
  split; [apply update_each_game_over; reflexivity|].
  intros keys g0 H1 H2. unfold playing_frame. rewrite H1, H2. reflexivity.
Qed.

Lemma later_monsters_still_update_witness :
  colliderect (player_rect (player_group ambush)) (monster_rect ambusher)
  = true
  /\ update_each ([] ++ ambusher :: [stroller]) ambush
     = ([stopped ambusher],
        mkGame (mkScoreboard 0 100 1 5 0)
               (player_group ambush) [] [ambusher; stroller] []
               the_walls caught_message GAME_STATE_GAME_OVER true)
  /\ playing_frame no_keys ambush
     = (mkGame (mkScoreboard 0 100 1 5 0)
               (player_group ambush) [] [stopped ambusher] []
               the_walls caught_message GAME_STATE_GAME_OVER true,
        NoScreen).
Proof.
  assert (Hhit : colliderect (player_rect (player_group ambush))
                             (monster_rect ambusher) = true)
    by (vm_compute; reflexivity).
  destruct (later_monsters_still_update [] [stroller] ambusher ambush Hhit)
    as (Hloop & _ & _ & _ & Hframe).
  split; [exact Hhit|].
  split.
  - rewrite Hloop. vm_compute. reflexivity.
  - rewrite (Hframe no_keys ambush); vm_compute; reflexivity.
Defined.

(** ** The timer *)

Lemma countdown_spec (n : nat) (t : float) :
  countdown n t = true ->
  (forall k, (k < n)%nat ->
     let u := Nat.iter k tick_down t in
     (0 <? u)%float = true /\ (u <=? 0)%float = false
     /\ (u <=? u)%float = true /\ (tick_down u <=? u)%float = true)
  /\ (Nat.iter n tick_down t <=? 0)%float = true.
Proof.
  revert t. induction n as [|n IH]; intros t H.
  - split; [intros k Hk; inversion Hk | exact H].
  - cbn [countdown] in H.
    repeat (apply andb_prop in H; destruct H as [H ?]).
    destruct (IH (tick_down t)) as [Hlt Hend]; [assumption|].
    split.
    + intros [|k] Hk.
      * cbn. repeat split; try assumption.
        destruct (t <=? 0)%float; [discriminate | reflexivity].
      * rewrite Nat.iter_succ_r. apply Hlt. apply PeanoNat.lt_S_n, Hk.
    + rewrite Nat.iter_succ_r. exact Hend.
Qed.

Lemma countdown_from_100 : countdown last_tick 100 = true.
Proof. vm_compute. reflexivity. Qed.

Lemma last_tick_positive : (0 < last_tick)%nat.
Proof. apply PeanoNat.Nat.ltb_lt. vm_compute. reflexivity. Qed.

Lemma time_after_running (k : nat) :
  (k < last_tick)%nat ->
  (0 <? time_after k)%float = true
  /\ (time_after k <=? 0)%float = false
  /\ (time_after k <=? time_after k)%float = true
  /\ (time_after (S k) <=? time_after k)%float = true.
Proof.
  intros Hk.
  exact (proj1 (countdown_spec last_tick 100 countdown_from_100) k Hk).
Qed.

Lemma time_after_last : (time_after last_tick <=? 0)%float = true.
Proof. exact (proj2 (countdown_spec last_tick 100 countdown_from_100)). Qed.

(** With the rounding of binary64 the timer of a game is still above 0
    after 6000 updates; update 6001 ends it. *)
Remark timer_ends_with_update_6001 :
  (0 <? time_after (Z.to_nat 6000))%float = true
  /\ (time_after (Z.to_nat 6001) <=? 0)%float = true.
Proof.
  split.
  - apply (time_after_running (Z.to_nat 6000)).
    apply PeanoNat.Nat.ltb_lt. vm_compute. reflexivity.
  - exact time_after_last.
Qed.

Ltac by_cases :=
  repeat match goal with |- context [if ?c then _ else _] => destruct c end;
  try reflexivity.

Lemma Monster_update_clock (m : Monster) (g : Game) :
  clock (snd (Monster_update m g)) = clock g.
Proof. unfold Monster_update. by_cases. Qed.

Lemma update_each_clock (sprites : list Monster) (g : Game) :
  clock (snd (update_each sprites g)) = clock g.
Proof.
  revert g. induction sprites as [|m rest IH]; intros g; [reflexivity|].
  cbn [update_each].
  pose proof (Monster_update_clock m g) as Hm.
  destruct (Monster_update m g) as [f g1].
  pose proof (IH g1) as Hrest.
  destruct (update_each rest g1) as [ms g2].
  cbn [snd] in *. congruence.
Qed.

Lemma monsters_group_update_clock (g : Game) :
  clock (monsters_group_update g) = clock g.
Proof.
  unfold monsters_group_update.
  pose proof (update_each_clock (monsters_group g) g) as H.
  destruct (update_each (monsters_group g) g) as [ms g']. exact H.
Qed.

Lemma portals_group_update_clock (g : Game) :
  clock (portals_group_update g) = clock g.
Proof.
  unfold portals_group_update.
  generalize (portals_group g) as ps. intros ps. revert g.
  induction ps as [|p ps IH]; intros g; [reflexivity|].
  cbn [fold_left]. rewrite IH. unfold Portal_update. by_cases.
Qed.

Lemma Player_update_clock (keys : Keys) (g : Game) :
  clock (Player_update keys g) = clock g.
Proof. unfold Player_update. by_cases. Qed.

Lemma Scoreboard_update_clock (g : Game) :
  clock (Scoreboard_update g) = tick_down (clock g).
Proof. unfold Scoreboard_update. by_cases. Qed.

(** The state after the monsters' loop: what it was, or game over with
    the ghost message. *)
Lemma Monster_update_outcome (m : Monster) (g : Game) :
  (current_game_state (snd (Monster_update m g)) = current_game_state g
   /\ game_over_reason_message (snd (Monster_update m g))
      = game_over_reason_message g)
  \/ (current_game_state (snd (Monster_update m g)) = GAME_STATE_GAME_OVER
      /\ game_over_reason_message (snd (Monster_update m g)) = caught_message).
Proof. unfold Monster_update. by_cases; cbn; auto. Qed.

Lemma update_each_outcome (sprites : list Monster) (g : Game) :
  (current_game_state (snd (update_each sprites g)) = current_game_state g
   /\ game_over_reason_message (snd (update_each sprites g))
      = game_over_reason_message g)
  \/ (current_game_state (snd (update_each sprites g)) = GAME_STATE_GAME_OVER
      /\ game_over_reason_message (snd (update_each sprites g))
         = caught_message).
Proof.
  revert g. induction sprites as [|m rest IH]; intros g; [left; auto|].
  cbn [update_each].
  pose proof (Monster_update_outcome m g) as Hm.
  destruct (Monster_update m g) as [f g1].
  pose proof (IH g1) as Hrest.
  destruct (update_each rest g1) as [ms g2].
  cbn [snd] in *.
  destruct Hrest as [[H1 H2] | [H1 H2]]; [|right; auto].
  destruct Hm as [[H3 H4] | [H3 H4]]; [left | right]; split; congruence.
Qed.

Lemma monsters_group_update_outcome (g : Game) :
  (current_game_state (monsters_group_update g) = current_game_state g
   /\ game_over_reason_message (monsters_group_update g)
      = game_over_reason_message g)
  \/ (current_game_state (monsters_group_update g) = GAME_STATE_GAME_OVER
      /\ game_over_reason_message (monsters_group_update g) = caught_message).
Proof.
  unfold monsters_group_update.
  pose proof (update_each_outcome (monsters_group g) g) as H.
  destruct (update_each (monsters_group g) g) as [ms g']. exact H.
Qed.

Lemma playing_true (g : Game) :
  playing g = true <-> current_game_state g = GAME_STATE_PLAYING.
Proof.
  unfold playing. destruct (current_game_state g); cbn; split;
    intros H; try reflexivity; discriminate H.
Qed.

Lemma playing_false (g : Game) :
  playing g = false <-> current_game_state g <> GAME_STATE_PLAYING.
Proof.
  unfold playing. destruct (current_game_state g); cbn; split;
    intros H; try reflexivity; try discriminate; try congruence.
Qed.

Lemma Player_update_outcome (keys : Keys) (g : Game) :
  (current_game_state (Player_update keys g) = current_game_state g
   /\ game_over_reason_message (Player_update keys g)
      = game_over_reason_message g)
  \/ (current_game_state (Player_update keys g) = GAME_STATE_GAME_OVER
      /\ game_over_reason_message (Player_update keys g) = exit_message).
Proof. unfold Player_update. by_cases; cbn; auto. Qed.

Lemma portals_group_update_outcome (g : Game) :
  current_game_state (portals_group_update g) = current_game_state g
  /\ game_over_reason_message (portals_group_update g)
     = game_over_reason_message g.
Proof.
  unfold portals_group_update.
  generalize (portals_group g) as ps. intros ps. revert g.
  induction ps as [|p ps IH]; intros g; [split; reflexivity|].
  cbn [fold_left]. destruct (IH (Portal_update p g)) as [H1 H2].
  rewrite H1, H2. unfold Portal_update.
  destruct (truthy _); split; reflexivity.
Qed.

Lemma Scoreboard_update_outcome (g : Game) :
  ((clock (Scoreboard_update g) <=? 0)%float = true
   /\ current_game_state (Scoreboard_update g) = GAME_STATE_GAME_OVER
   /\ game_over_reason_message (Scoreboard_update g) = time_message)
  \/ ((clock (Scoreboard_update g) <=? 0)%float = false
      /\ current_game_state (Scoreboard_update g) = current_game_state g
      /\ game_over_reason_message (Scoreboard_update g)
         = game_over_reason_message g).
Proof.
  unfold Scoreboard_update, is_time_up, clock. cbn [time_left].
  destruct (time_left (scoreboard g) - frame_time <=? 0)%float eqn:E;
    [left | right]; repeat split; exact E.
Qed.

(** The three ways a frame of play ends: before the scoreboard is
    updated (the exit, a ghost), or after it, with the timer expired or
    not. *)
Lemma playing_frame_timer (keys : Keys) (g : Game) :
  current_game_state g = GAME_STATE_PLAYING ->
  let g' := fst (playing_frame keys g) in
  (clock g' = clock g
   /\ current_game_state g' = GAME_STATE_GAME_OVER
   /\ game_over_reason_message g' <> time_message)
  \/ (clock g' = tick_down (clock g)
      /\ (clock g' <=? 0)%float = true
      /\ current_game_state g' = GAME_STATE_GAME_OVER
      /\ game_over_reason_message g' = time_message)
  \/ (clock g' = tick_down (clock g)
      /\ (clock g' <=? 0)%float = false
      /\ current_game_state g' = GAME_STATE_PLAYING).
Proof.
  intros Hplaying. cbv zeta. unfold playing_frame.
  pose proof (Player_update_outcome keys g) as Hp.
  pose proof (Player_update_clock keys g) as Cp.
  set (g1 := Player_update keys g) in *.
  destruct (playing g1) eqn:E1.
  2:{ left. cbn [fst]. apply playing_false in E1.
      destruct Hp as [[H1 H2] | [H1 H2]]; [congruence|].
      repeat split; [exact Cp | exact H1 |].
      rewrite H2. discriminate. }
  apply playing_true in E1.
  pose proof (monsters_group_update_outcome g1) as Hm.
  pose proof (monsters_group_update_clock g1) as Cm.
  set (g2 := monsters_group_update g1) in *.
  destruct (playing g2) eqn:E2.
  2:{ left. cbn [fst]. apply playing_false in E2.
      destruct Hm as [[H1 H2] | [H1 H2]]; [congruence|].
      repeat split; [congruence | exact H1 |].
      rewrite H2. discriminate. }
  apply playing_true in E2.
  pose proof (portals_group_update_outcome g2) as [Hs Hr].
  pose proof (portals_group_update_clock g2) as Cq.
  set (g3 := portals_group_update g2) in *.
  pose proof (Scoreboard_update_outcome g3) as Hsb.
  pose proof (Scoreboard_update_clock g3) as Cs.
  set (g4 := Scoreboard_update g3) in *.
  assert (C4 : clock g4 = tick_down (clock g)) by congruence.
  destruct Hsb as [(Hle & Hst & Hmsg) | (Hle & Hst & Hmsg)].
  - right; left.
    assert (E4 : playing g4 = false) by (apply playing_false; congruence).
    rewrite E4. cbn [fst]. auto.
  - right; right.
    assert (E4 : playing g4 = true) by (apply playing_true; congruence).
    rewrite E4. cbn [fst]. repeat split; [exact C4 | exact Hle | congruence].
Qed.

Lemma on_event_clock (img : Images) (g : Game) (event : Event) :
  (clock (on_event img g event) = time_after 0)
  \/ (clock (on_event img g event) = clock g
      /\ current_game_state (on_event img g event) = current_game_state g).
Proof.
  destruct event as [|key|]; cbn [on_event]; [right; split; reflexivity| |].
  - unfold on_keydown.
    destruct key;
      match goal with
      | |- context [current_game_state ?a] =>
          destruct (current_game_state a) eqn:E
      end;
      try (left; reflexivity);
      try (right; split; [reflexivity | cbn in *; congruence]).
    right. cbv iota zeta. unfold place_portal.
    destruct (0 <? _); (split; [reflexivity | exact E]).
  - right; split; reflexivity.
Qed.




(** ** Monsters and portals *)

Lemma after_dokill_clear (A : Type) (rect : A -> Rect) (sprite : Rect)
    (group : list A) (a : A) :
  In a (after_dokill rect sprite group) ->
  colliderect sprite (rect a) = false.
Proof.
  unfold after_dokill. intros H. apply filter_In in H.
  destruct H as [_ H]. apply negb_true_iff in H. exact H.
Qed.

Lemma truthy_spritecollide (A : Type) (rect : A -> Rect) (sprite : Rect)
    (group : list A) :
  truthy (spritecollide rect sprite group)
  = spritecollideany rect sprite group.
Proof.
  unfold spritecollide, spritecollideany.
  induction group as [|a group IH]; [reflexivity|].
  cbn [filter existsb].
  destruct (colliderect sprite (rect a)); [reflexivity | exact IH].
Qed.

(** What [Monster.update] does once the player is not hit: the monster
    moves, and if it then meets a portal it dies, one ghost is counted,
    and every portal it meets is removed from the portals group. *)
Lemma Monster_update_on_portal (self : Monster) (g : Game) :
  colliderect (player_rect (player_group g)) (monster_rect self) = false ->
  let moved := Monster_move self (walls_group g) in
  Monster_update self g
  = if spritecollideany portal_rect (monster_rect moved) (portals_group g)
    then (Killed,
          with_scoreboard (ghost_busted (scoreboard g))
            (with_portals
               (after_dokill portal_rect (monster_rect moved)
                             (portals_group g)) g))
    else (Alive moved, g).
Proof.
  intros Hhit. cbv zeta. unfold Monster_update.
  rewrite truthy_singleton, Hhit, truthy_spritecollide. reflexivity.
Qed.

(** C1, at the game [stroll].  The monster's move brings it onto the
    portal; its update kills it and counts one ghost, and empties the
    portals group: after the frame the portal is gone. *)
Theorem portal_dies_with_the_monster :
  portals_group stroll = [door]
  /\ monsters_group stroll = [stroller]
  /\ colliderect (monster_rect (Monster_move stroller (walls_group stroll)))
                 (portal_rect door) = true
  /\ Monster_update stroller stroll
     = (Killed,
        with_scoreboard (ghost_busted (scoreboard stroll))
                        (with_portals [] stroll))
  /\ let g' := fst (playing_frame no_keys stroll) in
     current_game_state g' = GAME_STATE_PLAYING
     /\ monsters_group g' = []
     /\ ghosts_busted (scoreboard g') = ghosts_busted (scoreboard stroll) + 1
     /\ portals_group g' = [].
Proof. vm_compute. repeat split; reflexivity. Qed.

(** ** Coins *)

(** What [Player.update] does to the coins when the exit is not
    reached: every coin under the moved player is removed, and one coin
    is counted if there was any. *)
Lemma Player_update_coins (keys : Keys) (g : Game) :
  right (player_rect (player_group g)) <= 1050 ->
  let r := Player_move keys (player_group g) (walls_group g) in
  coins_group (Player_update keys g) = after_dokill coin_rect r (coins_group g)
  /\ coins_collected (scoreboard (Player_update keys g))
     = coins_collected (scoreboard g)
       + (if spritecollideany coin_rect r (coins_group g) then 1 else 0).
Proof.
  intros Hexit. cbv zeta. unfold Player_update.
  apply Z.ltb_ge in Hexit. rewrite Hexit.
  cbn [coins_group with_player walls_group].
  rewrite truthy_spritecollide.
  destruct (spritecollideany coin_rect _ (coins_group g)) eqn:E.
  - split; [reflexivity | cbn; reflexivity].
  - split; [|cbn; lia].
    cbn [coins_group with_player].
    unfold after_dokill. symmetry.
    apply forallb_filter_id. unfold spritecollideany in E.
    rewrite forallb_forall. intros c Hc.
    apply negb_true_iff.
    destruct (colliderect _ (coin_rect c)) eqn:Ec; [|reflexivity].
    assert (existsb (fun s => colliderect
              (Player_move keys (player_group g) (walls_group g))
              (coin_rect s)) (coins_group g) = true)
      by (apply existsb_exists; exists c; auto).
    congruence.
Qed.

(** C2, at the game [two_coins].  Two coins are under the player; the
    update removes both and adds 1, not 2, to [coins_collected]. *)
Theorem two_coins_count_once :
  let r := Player_move no_keys (player_group two_coins)
                       (walls_group two_coins) in
  spritecollide coin_rect r (coins_group two_coins) = [near_coin; next_coin]
  /\ coins_group (Player_update no_keys two_coins) = [far_coin]
  /\ coins_collected (scoreboard (Player_update no_keys two_coins))
     = coins_collected (scoreboard two_coins) + 1
  /\ current_game_state (Player_update no_keys two_coins)
     = GAME_STATE_PLAYING.
Proof. vm_compute. repeat split; reflexivity. Qed.

(** ** The score *)

(** C3, at the game [last_coin].  The player picks up a coin and is
    caught in the same frame; the scoreboard is not updated in that
    frame, and the game-over screen of the next frame shows one coin
    and a score of 0. *)
Theorem score_is_stale_when_caught :
  let g1 := fst (frame sample_images [] no_keys last_coin) in
  tallied (scoreboard last_coin)
  /\ snd (frame sample_images [] no_keys last_coin) = NoScreen
  /\ current_game_state g1 = GAME_STATE_GAME_OVER
  /\ coins_collected (scoreboard g1) = 1
  /\ ghosts_busted (scoreboard g1) = 0
  /\ points (scoreboard g1) = 0
  /\ frame sample_images [] no_keys g1
     = (g1, GameOverScreen caught_message 0 1 0)
  /\ ~ tallied (scoreboard g1).
Proof.
  cbv zeta.
  repeat (split; [vm_compute; reflexivity|]).
  vm_compute. discriminate.
Qed.

(** Where the score does agree with the counters: on every screen of a
    game in play, and on the game-over screen unless a ghost ended the
    game. *)

Lemma Scoreboard_update_tallied (g : Game) :
  tallied (scoreboard (Scoreboard_update g)).
Proof. unfold Scoreboard_update. by_cases. Qed.

Lemma Player_update_exit (keys : Keys) (g : Game) :
  current_game_state (Player_update keys g) <> current_game_state g ->
  Player_update keys g = set_game_state GAME_STATE_GAME_OVER exit_message g.
Proof.
  unfold Player_update.
  destruct (1050 <? right (player_rect (player_group g)));
    [reflexivity|].
  intros H. exfalso. apply H. by_cases.
Qed.

Lemma playing_frame_score (keys : Keys) (g : Game) :
  current_game_state g = GAME_STATE_PLAYING ->
  tallied (scoreboard g) ->
  score_inv (fst (playing_frame keys g))
  /\ screen_ok (snd (playing_frame keys g)).
Proof.
  intros Hplaying Htally. unfold playing_frame.
  destruct (playing (Player_update keys g)) eqn:E1.
  2:{ apply playing_false in E1. cbn [fst snd screen_ok].
      split; [|exact I]. left.
      rewrite Player_update_exit by congruence. exact Htally. }
  destruct (playing (monsters_group_update (Player_update keys g))) eqn:E2.
  2:{ apply playing_false in E2. apply playing_true in E1.
      cbn [fst snd screen_ok]. split; [|exact I]. right.
      destruct (monsters_group_update_outcome (Player_update keys g))
        as [[H1 H2] | [H1 H2]]; [congruence | auto]. }
  destruct (playing (Scoreboard_update _)) eqn:E3; cbn [fst snd screen_ok].
  - split; [left|]; apply Scoreboard_update_tallied.
  - split; [left; apply Scoreboard_update_tallied | exact I].
Qed.

Lemma on_event_score (img : Images) (g : Game) (event : Event) :
  score_inv g -> score_inv (on_event img g event).
Proof.
  intros Hg.
  destruct event as [|key|]; cbn [on_event]; [exact Hg| |exact Hg].
  unfold on_keydown.
  destruct key;
    match goal with
    | |- context [current_game_state ?a] =>
        destruct (current_game_state a) eqn:E
    end;
    try exact Hg;
    try (left; unfold tallied; cbn; reflexivity).
  cbv iota zeta. unfold place_portal.
  destruct (0 <? _); [|exact Hg].
  destruct Hg as [Hg | [Hg _]]; [left; exact Hg | congruence].
Qed.

Lemma frame_score (img : Images) (events : list Event) (keys : Keys)
    (g : Game) :
  score_inv g ->
  score_inv (fst (frame img events keys g))
  /\ screen_ok (snd (frame img events keys g)).
Proof.
  intros Hg. unfold frame.
  pose proof (events_preserve img score_inv (on_event_score img) events g Hg)
    as H.
  destruct (current_game_state (fold_left (on_event img) events g)) eqn:E;
    cbn [fst snd screen_ok].
  - split; [exact H | exact I].
  - apply playing_frame_score; [exact E|].
    destruct H as [H | [H _]]; [exact H | congruence].
  - split; [exact H|].
    destruct H as [H | [_ H]]; [right; exact H | left; exact H].
Qed.

Lemma screens_score (img : Images) (inputs : list (list Event * Keys))
    (g : Game) :
  score_inv g ->
  score_inv (fst (main_loop img inputs g))
  /\ Forall screen_ok (snd (main_loop img inputs g)).
Proof.
  revert g. induction inputs as [|[events keys] later IH]; intros g Hg.
  - split; [exact Hg | constructor].
  - cbn [main_loop]. destruct (running g); [|split; [exact Hg | constructor]].
    destruct (frame_score img events keys g Hg) as [H1 H2].
    destruct (frame img events keys g) as [g1 s]. cbn [fst snd] in H1, H2.
    destruct (IH g1 H1) as [H3 H4].
    destruct (main_loop img later g1) as [g2 ss]. cbn [fst snd] in *.
    split; [exact H3 | constructor; assumption].
Qed.

Lemma main_screens_score (img : Images) (inputs : list (list Event * Keys)) :
  Forall screen_ok (snd (main img inputs)).
Proof.
  unfold main. apply screens_score. left. unfold tallied. reflexivity.
Qed.

(** ** The portals' phase finds nothing

    A monster that is on a portal after its move is killed in the
    monsters' loop, so when the loop ends with the game still in play
    no monster of the group is on a portal of the group, and
    [portals_group.update] changes nothing.  Every monster a frame
    removes is therefore counted once in [ghosts_busted]. *)

Lemma colliderect_sym (a b : Rect) : colliderect a b = colliderect b a.
Proof.
  unfold colliderect.
  destruct (w a =? 0), (h a =? 0), (w b =? 0), (h b =? 0);
    cbn [orb]; try reflexivity.
  repeat match goal with
         | |- context [?u <? ?v] => destruct (u <? v)
         end; reflexivity.
Qed.

Lemma spritecollideany_false (A : Type) (rect : A -> Rect) (sprite : Rect)
    (group : list A) :
  spritecollideany rect sprite group = false <->
  forall a, In a group -> colliderect sprite (rect a) = false.
Proof.
  unfold spritecollideany. split.
  - intros H a Ha.
    destruct (colliderect sprite (rect a)) eqn:E; [|reflexivity].
    rewrite <- H. symmetry. apply existsb_exists. exists a. auto.
  - intros H. destruct (existsb _ group) eqn:E; [|reflexivity].
    apply existsb_exists in E. destruct E as (a & Ha & Hc).
    rewrite (H a Ha) in Hc. discriminate.
Qed.

Lemma Monster_update_portals (m : Monster) (g : Game) (p : Portal) :
  In p (portals_group (snd (Monster_update m g))) -> In p (portals_group g).
Proof.
  unfold Monster_update. by_cases; cbn; trivial. apply after_dokill_incl.
Qed.

Lemma update_each_portals (sprites : list Monster) (g : Game) (p : Portal) :
  In p (portals_group (snd (update_each sprites g))) ->
  In p (portals_group g).
Proof.
  revert g. induction sprites as [|m rest IH]; intros g; [trivial|].
  cbn [update_each].
  pose proof (Monster_update_portals m g p) as Hm.
  destruct (Monster_update m g) as [f g1].
  pose proof (IH g1) as Hrest.
  destruct (update_each rest g1) as [ms g2]. cbn [snd] in *. auto.
Qed.

Lemma update_each_apart (sprites : list Monster) (g : Game) :
  current_game_state (snd (update_each sprites g)) = GAME_STATE_PLAYING ->
  forall m p, In m (fst (update_each sprites g)) ->
              In p (portals_group (snd (update_each sprites g))) ->
              colliderect (monster_rect m) (portal_rect p) = false.
Proof.
  revert g. induction sprites as [|m0 rest IH]; intros g Hplaying m p Hm Hp;
    [destruct Hm|].
  cbn [update_each] in *.
  pose proof (Monster_update_outcome m0 g) as Hout.
  destruct (colliderect (player_rect (player_group g)) (monster_rect m0))
    eqn:Ehit.
  { exfalso.
    rewrite (Monster_update_on_player m0 g Ehit) in *.
    pose proof (update_each_game_over rest
                  (set_game_state GAME_STATE_GAME_OVER caught_message g)
                  eq_refl) as H.
    destruct (update_each rest _) as [ms g2]. cbn [snd] in *. congruence. }
  rewrite (Monster_update_on_portal m0 g Ehit) in *. cbv zeta in *.
  destruct (spritecollideany portal_rect _ (portals_group g)) eqn:Eportal.
  - specialize (IH (with_scoreboard (ghost_busted (scoreboard g))
                      (with_portals
                         (after_dokill portal_rect
                            (monster_rect (Monster_move m0 (walls_group g)))
                            (portals_group g)) g))).
    destruct (update_each rest _) as [ms g2]. cbn [fst snd survivor app] in *.
    apply IH; assumption.
  - pose proof (update_each_portals rest g p) as Hincl.
    specialize (IH g).
    destruct (update_each rest g) as [ms g2]. cbn [fst snd survivor app] in *.
    destruct Hm as [Hm | Hm]; [|apply IH; assumption].
    subst m.
    apply (proj1 (spritecollideany_false _ _ _ _) Eportal). auto.
Qed.

Lemma monsters_group_update_apart (g : Game) :
  current_game_state (monsters_group_update g) = GAME_STATE_PLAYING ->
  apart (monsters_group_update g).
Proof.
  unfold monsters_group_update, apart.
  pose proof (update_each_apart (monsters_group g) g) as H.
  destruct (update_each (monsters_group g) g) as [ms g']. exact H.
Qed.

Lemma Portal_update_apart (p : Portal) (g : Game) :
  (forall m, In m (monsters_group g) ->
             colliderect (monster_rect m) (portal_rect p) = false) ->
  Portal_update p g = g.
Proof.
  intros H. unfold Portal_update. rewrite truthy_spritecollide.
  replace (spritecollideany monster_rect (portal_rect p) (monsters_group g))
    with false; [reflexivity|].
  symmetry. apply spritecollideany_false. intros m Hm.
  rewrite colliderect_sym. apply H, Hm.
Qed.

Lemma portals_group_update_apart (g : Game) :
  apart g -> portals_group_update g = g.
Proof.
  unfold apart, portals_group_update. intros H.
  assert (Hall : forall p, In p (portals_group g) ->
                           forall m, In m (monsters_group g) ->
                             colliderect (monster_rect m) (portal_rect p)
                             = false) by auto.
  clear H. revert Hall. generalize (portals_group g) as ps.
  induction ps as [|p ps IH]; intros Hall; [reflexivity|].
  cbn [fold_left]. rewrite Portal_update_apart by (apply Hall; left; auto).
  apply IH. intros q Hq. apply Hall. right. exact Hq.
Qed.

(** In a frame of play the portals' phase is the identity. *)
Lemma portals_phase_finds_nothing (keys : Keys) (g : Game) :
  let g2 := monsters_group_update (Player_update keys g) in
  playing g2 = true -> portals_group_update g2 = g2.
Proof.
  cbv zeta. intros H. apply playing_true in H.
  apply portals_group_update_apart, monsters_group_update_apart, H.
Qed.

Lemma Monster_update_busts (m : Monster) (g : Game) :
  ghosts_busted (scoreboard (snd (Monster_update m g)))
  + count (survivor (fst (Monster_update m g)))
  = ghosts_busted (scoreboard g) + 1.
Proof. unfold Monster_update, count. by_cases; cbn; lia. Qed.

Lemma update_each_busts (sprites : list Monster) (g : Game) :
  ghosts_busted (scoreboard (snd (update_each sprites g)))
  + count (fst (update_each sprites g))
  = ghosts_busted (scoreboard g) + count sprites.
Proof.
  revert g. induction sprites as [|m rest IH]; intros g; [reflexivity|].
  cbn [update_each].
  pose proof (Monster_update_busts m g) as Hm.
  destruct (Monster_update m g) as [f g1].
  pose proof (IH g1) as Hrest.
  destruct (update_each rest g1) as [ms g2].
  cbn [fst snd] in *. unfold count in *.
  rewrite length_app. cbn [List.length]. lia.
Qed.

(** The ghosts a frame of play counts are the monsters it removes. *)
Lemma playing_frame_busts (keys : Keys) (g : Game) :
  let g' := fst (playing_frame keys g) in
  ghosts_busted (scoreboard g') + count (monsters_group g')
  = ghosts_busted (scoreboard g) + count (monsters_group g).
Proof.
  cbv zeta.
  assert (Hp : ghosts_busted (scoreboard (Player_update keys g))
               = ghosts_busted (scoreboard g)
               /\ monsters_group (Player_update keys g) = monsters_group g).
  { unfold Player_update. by_cases; split; reflexivity. }
  destruct Hp as [Hp1 Hp2].
  assert (Hm : forall g1,
             ghosts_busted (scoreboard (monsters_group_update g1))
             + count (monsters_group (monsters_group_update g1))
             = ghosts_busted (scoreboard g1) + count (monsters_group g1)).
  { intros g1. unfold monsters_group_update.
    pose proof (update_each_busts (monsters_group g1) g1) as H.
    destruct (update_each (monsters_group g1) g1) as [ms g2]. exact H. }
  assert (Hs : forall g1,
             ghosts_busted (scoreboard (Scoreboard_update g1))
             = ghosts_busted (scoreboard g1)
             /\ monsters_group (Scoreboard_update g1) = monsters_group g1).
  { intros g1. unfold Scoreboard_update. by_cases; split; reflexivity. }
  unfold playing_frame.
  destruct (playing (Player_update keys g)) eqn:E1; cbn [fst];
    [|rewrite Hp1, Hp2; reflexivity].
  destruct (playing (monsters_group_update _)) eqn:E2; cbn [fst];
    [|rewrite Hm, Hp1, Hp2; reflexivity].
  rewrite (portals_phase_finds_nothing keys g E2).
  destruct (Hs (monsters_group_update (Player_update keys g))) as [Hs1 Hs2].
  destruct (playing (Scoreboard_update _)); cbn [fst];
    rewrite Hs1, Hs2, Hm, Hp1, Hp2; reflexivity.
Qed.

(** ** Two whole runs

    Both start from [main_start] with the image sizes of
    [sample_images] and are run frame by frame. *)

(** The portal dropped in the corridor is in place, with all twelve
    monsters alive, until the frame in which the first monster walks
    into it; after that frame the monster is gone, one ghost is counted,
    and the portals group is empty. *)
Example trap_is_lost_with_the_monster :
  let before := fst (main sample_images (removelast trap_in_the_corridor)) in
  let after := fst (main sample_images trap_in_the_corridor) in
  (portals_group before = [mkPortal (mkRect 75 129 50 70)]
   /\ count (monsters_group before) = 12
   /\ ghosts_busted (scoreboard before) = 0)
  /\ (current_game_state after = GAME_STATE_PLAYING
      /\ portals_group after = []
      /\ count (monsters_group after) = 11
      /\ ghosts_busted (scoreboard after) = 1
      /\ budget after = 4).
Proof. vm_compute. repeat split; reflexivity. Qed.

(** The player steps onto the coin in the frame in which the monster
    catches it; the game-over screen of the next frame shows one coin
    and a score of 0. *)
Example caught_on_the_coin_run :
  last (snd (main sample_images caught_on_the_coin)) NoScreen
  = GameOverScreen caught_message 0 1 0.
Proof. vm_compute. reflexivity. Qed.

(** * Further properties *)

(** ** How invariants are carried through a run *)

(** What one event does: nothing, clear [running], build a new world,
    or, during play, place a portal. *)
Lemma on_event_cases (img : Images) (g : Game) (event : Event) :
  on_event img g event = g
  \/ on_event img g event = with_running false g
  \/ on_event img g event = restart img g
  \/ (current_game_state g = GAME_STATE_PLAYING
      /\ on_event img g event = place_portal img g).
Proof.
  destruct event as [|key|]; cbn [on_event]; auto.
  unfold on_keydown.
  destruct key;
    match goal with
    | |- context [current_game_state ?a] =>
        destruct (current_game_state a) eqn:E
    end; cbn in E; auto.
Qed.

Lemma run_invariant (img : Images) (P : Game -> Prop) :
  P (main_start img) ->
  (forall g, P g -> P (with_running false g)) ->
  (forall g, P (restart img g)) ->
  (forall g, current_game_state g = GAME_STATE_PLAYING ->
             P g -> P (place_portal img g)) ->
  (forall keys g, current_game_state g = GAME_STATE_PLAYING ->
                  P g -> P (fst (playing_frame keys g))) ->
  forall inputs, P (fst (main img inputs)).
Proof.
  intros Hstart Hquit Hrestart Hportal Hplay inputs. unfold main.
  apply main_loop_preserves; [|exact Hstart].
  apply frame_preserves; [|exact Hplay].
  intros g event Hg.
  destruct (on_event_cases img g event) as [E | [E | [E | [Hs E]]]];
    rewrite E; auto.
Qed.

(** A property of the game that does not read the monsters group is
    kept by a frame of play when each [update] keeps it. *)
Lemma playing_frame_preserves (P : Game -> Prop) :
  (forall keys g, P g -> P (Player_update keys g)) ->
  (forall m g, P g -> P (snd (Monster_update m g))) ->
  (forall ms g, P g -> P (with_monsters ms g)) ->
  (forall p g, P g -> P (Portal_update p g)) ->
  (forall g, P g -> P (Scoreboard_update g)) ->
  forall keys g, P g -> P (fst (playing_frame keys g)).
Proof.
  intros Hplayer Hmonster Hgroup Hportal Hscore keys g Hg.
  assert (Hms : forall g1, P g1 -> P (monsters_group_update g1)).
  { intros g1 H1. unfold monsters_group_update.
    assert (Hloop : forall sprites g2,
               P g2 -> P (snd (update_each sprites g2))).
    { induction sprites as [|m rest IH]; intros g2 H2; [exact H2|].
      cbn [update_each].
      specialize (Hmonster m g2 H2).
      destruct (Monster_update m g2) as [f g3].
      specialize (IH g3 Hmonster).
      destruct (update_each rest g3) as [ms g4]. exact IH. }
    specialize (Hloop (monsters_group g1) g1 H1).
    destruct (update_each (monsters_group g1) g1) as [ms g2].
    apply Hgroup, Hloop. }
  assert (Hps : forall g1, P g1 -> P (portals_group_update g1)).
  { intros g1. unfold portals_group_update.
    generalize (portals_group g1) as ps. intros ps. revert g1.
    induction ps as [|p ps IH]; intros g1 H1; [exact H1|].
    cbn [fold_left]. apply IH, Hportal, H1. }
  unfold playing_frame.
  repeat match goal with
         | |- context [if playing ?a then _ else _] => destruct (playing a)
         end; cbn [fst]; auto.
Qed.

Lemma main_loop_screens (img : Images) (P : Game -> Prop)
    (Q : Screen -> Prop) :
  (forall events keys g,
      P g -> P (fst (frame img events keys g))
             /\ Q (snd (frame img events keys g))) ->
  forall inputs g,
    P g -> P (fst (main_loop img inputs g))
           /\ Forall Q (snd (main_loop img inputs g)).
Proof.
  intros Hframe inputs.
  induction inputs as [|[events keys] later IH]; intros g Hg.
  - split; [exact Hg | constructor].
  - cbn [main_loop]. destruct (running g); [|split; [exact Hg | constructor]].
    destruct (Hframe events keys g Hg) as [H1 H2].
    destruct (frame img events keys g) as [g1 s]. cbn [fst snd] in H1, H2.
    destruct (IH g1 H1) as [H3 H4].
    destruct (main_loop img later g1) as [g2 ss]. cbn [fst snd] in *.
    split; [exact H3 | constructor; assumption].
Qed.

(** ** What never changes *)

(** X1.  In every run the walls are the 21 walls of the layout, and the
    player keeps its speed of 3, the size of its image and its spawn
    position: no update adds, removes or moves a wall or resizes the
    player. *)
Theorem layout_is_fixed (img : Images) (inputs : list (list Event * Keys)) :
  let g := fst (main img inputs) in
  walls_group g = the_walls
  /\ player_speed (player_group g) = 3
  /\ w (player_rect (player_group g)) = fst (robot_png img)
  /\ h (player_rect (player_group g)) = snd (robot_png img)
  /\ original_position (player_group g) = (100, 200).
Proof.
  cbv zeta.
  apply (run_invariant img (fun g =>
    walls_group g = the_walls
    /\ player_speed (player_group g) = 3
    /\ w (player_rect (player_group g)) = fst (robot_png img)
    /\ h (player_rect (player_group g)) = snd (robot_png img)
    /\ original_position (player_group g) = (100, 200))).
  - repeat split.
  - intros g H. exact H.
  - intros g. repeat split.
  - intros g _ H. unfold place_portal. by_cases; exact H.
  - intros keys g _.
    apply (playing_frame_preserves (fun g =>
      walls_group g = the_walls
      /\ player_speed (player_group g) = 3
      /\ w (player_rect (player_group g)) = fst (robot_png img)
      /\ h (player_rect (player_group g)) = snd (robot_png img)
      /\ original_position (player_group g) = (100, 200))).
    + intros keys0 g0 H. unfold Player_update, Player_move.
      destruct H as (H1 & H2 & H3 & H4 & H5).
      by_cases; cbn; auto.
    + intros m g0 H. unfold Monster_update. by_cases; exact H.
    + intros ms g0 H. exact H.
    + intros p g0 H. unfold Portal_update. by_cases; exact H.
    + intros g0 H. unfold Scoreboard_update. by_cases; exact H.
Qed.

(** ** Counting sprites *)

(** X2.  In every run [ghosts_busted] is the number of monsters that are
    gone: it and the size of the monsters group add up to 12. *)
Theorem monsters_are_accounted_for
    (img : Images) (inputs : list (list Event * Keys)) :
  let g := fst (main img inputs) in
  ghosts_busted (scoreboard g) + count (monsters_group g) = 12.
Proof.
  cbv zeta.
  apply (run_invariant img (fun g =>
    ghosts_busted (scoreboard g) + count (monsters_group g) = 12)).
  - reflexivity.
  - intros g H. exact H.
  - intros g. reflexivity.
  - intros g _ H. unfold place_portal. by_cases; exact H.
  - intros keys g _ H. rewrite playing_frame_busts. exact H.
Qed.

Lemma after_dokill_count (A : Type) (rect : A -> Rect) (sprite : Rect)
    (group : list A) :
  count (after_dokill rect sprite group)
  + (if spritecollideany rect sprite group then 1 else 0)
  <= count group.
Proof.
  unfold count, after_dokill, spritecollideany.
  induction group as [|a group IH]; [cbn; lia|].
  cbn [filter existsb List.length].
  destruct (colliderect sprite (rect a)); cbn [negb orb List.length].
  - pose proof (filter_length_le
                  (fun s => negb (colliderect sprite (rect s))) group).
    lia.
  - destruct (existsb _ group); lia.
Qed.

Lemma after_dokill_smaller (A : Type) (rect : A -> Rect) (sprite : Rect)
    (group : list A) :
  count (after_dokill rect sprite group) <= count group.
Proof.
  pose proof (after_dokill_count A rect sprite group).
  destruct (spritecollideany rect sprite group); lia.
Qed.

Lemma playing_frame_coins (img : Images) (keys : Keys) (g : Game) :
  coins_kept img g -> coins_kept img (fst (playing_frame keys g)).
Proof.
  apply (playing_frame_preserves (coins_kept img)); unfold coins_kept.
  - intros keys0 g0 (H1 & H2 & H3). unfold Player_update.
    destruct (1050 <? _); [auto|].
    rewrite truthy_spritecollide.
    cbn [coins_group with_player scoreboard].
    pose proof (after_dokill_count Coin coin_rect
                  (Player_move keys0 (player_group g0) (walls_group g0))
                  (coins_group g0)) as Hc.
    destruct (spritecollideany coin_rect _ (coins_group g0)).
    + cbn. split; [lia|]. split; [lia|].
      intros c Hin. apply H3. revert Hin. apply after_dokill_incl.
    + cbn. auto.
  - intros m g0 H. unfold Monster_update. by_cases; exact H.
  - intros ms g0 H. exact H.
  - intros p g0 H. unfold Portal_update. by_cases; exact H.
  - intros g0 H. unfold Scoreboard_update. by_cases; exact H.
Qed.

Lemma new_world_coins (img : Images) (g : Game) :
  coins_kept img (restart img g).
Proof. unfold coins_kept. split; [cbn; lia|]. split; [cbn; lia | auto]. Qed.

(** X3.  In every run [coins_collected] is not negative, it and the
    number of coins left add up to at most 28, and every coin left is a
    coin of the layout: coins are only ever removed, and a removed coin
    adds at most one to the counter. *)
Theorem coins_are_only_removed
    (img : Images) (inputs : list (list Event * Keys)) :
  let g := fst (main img inputs) in
  0 <= coins_collected (scoreboard g)
  /\ coins_collected (scoreboard g) + count (coins_group g) <= 28
  /\ (forall c, In c (coins_group g) -> In c (the_coins img)).
Proof.
  cbv zeta. apply (run_invariant img (coins_kept img)).
  - exact (new_world_coins img (main_start img)).
  - intros g H. exact H.
  - apply new_world_coins.
  - intros g _ H. unfold place_portal. by_cases; exact H.
  - intros keys g _. apply playing_frame_coins.
Qed.

(** X4.  In every run the portals in play and the portals left to place
    add up to at most 5, so there are never more than 5 portals in
    play. *)
Theorem portals_are_budgeted
    (img : Images) (inputs : list (list Event * Keys)) :
  let g := fst (main img inputs) in
  count (portals_group g) + budget g <= 5
  /\ count (portals_group g) <= 5.
Proof.
  cbv zeta.
  assert (H : count (portals_group (fst (main img inputs)))
              + budget (fst (main img inputs)) <= 5).
  { apply (run_invariant img (fun g =>
      count (portals_group g) + budget g <= 5)).
    - cbn. lia.
    - intros g H. exact H.
    - intros g. cbn. lia.
    - intros g _ H. unfold place_portal. fold (budget g).
      destruct (0 <? budget g); [|exact H].
      unfold count, budget in *. cbn. rewrite length_app. cbn. lia.
    - intros keys g _.
      apply (playing_frame_preserves (fun g =>
        count (portals_group g) + budget g <= 5)).
      + intros keys0 g0 H. unfold Player_update. by_cases; exact H.
      + intros m g0 H. unfold Monster_update.
        destruct (truthy _); [exact H|].
        destruct (truthy _); [|exact H].
        pose proof (after_dokill_smaller Portal portal_rect
                      (monster_rect (Monster_move m (walls_group g0)))
                      (portals_group g0)).
        unfold budget in *. cbn. lia.
      + intros ms g0 H. exact H.
      + intros p g0 H. unfold Portal_update. by_cases; exact H.
      + intros g0 H. unfold Scoreboard_update. by_cases; exact H. }
  split; [exact H|].
  pose proof (budget_in_range img inputs). lia.
Qed.

Lemma playing_frame_not_overstated (keys : Keys) (g : Game) :
  not_overstated (scoreboard g) ->
  not_overstated (scoreboard (fst (playing_frame keys g))).
Proof.
  apply (playing_frame_preserves (fun g => not_overstated (scoreboard g)));
    unfold not_overstated.
  - intros keys0 g0 H. unfold Player_update. by_cases; cbn; lia.
  - intros m g0 H. unfold Monster_update. by_cases; cbn; lia.
  - intros ms g0 H. exact H.
  - intros p g0 H. unfold Portal_update. by_cases; cbn; lia.
  - intros g0 H. unfold Scoreboard_update. by_cases; cbn; lia.
Qed.

(** X5.  In every run the score is between 0 and what the two counters
    are worth, and so never above 3400: when [points] is out of date it
    is too low, not too high. *)
Theorem score_is_never_overstated
    (img : Images) (inputs : list (list Event * Keys)) :
  let sb := scoreboard (fst (main img inputs)) in
  0 <= points sb <= coins_collected sb * 100 + ghosts_busted sb * 50
  /\ points sb <= 3400.
Proof.
  cbv zeta.
  assert (H : not_overstated (scoreboard (fst (main img inputs)))
              /\ ghosts_busted (scoreboard (fst (main img inputs)))
                 + count (monsters_group (fst (main img inputs))) = 12
              /\ coins_kept img (fst (main img inputs))).
  { apply (run_invariant img (fun g =>
      not_overstated (scoreboard g)
      /\ ghosts_busted (scoreboard g) + count (monsters_group g) = 12
      /\ coins_kept img g)).
    - split; [unfold not_overstated; cbn; lia|].
      split; [reflexivity | exact (new_world_coins img (main_start img))].
    - intros g H. exact H.
    - intros g. split; [unfold not_overstated; cbn; lia|].
      split; [reflexivity | apply new_world_coins].
    - intros g _ H. unfold place_portal. by_cases; exact H.
    - intros keys g _ (H1 & H2 & H3).
      split; [apply playing_frame_not_overstated, H1|].
      split; [rewrite playing_frame_busts; exact H2|].
      apply playing_frame_coins, H3. }
  destruct H as ((Hc & Hg & Hp) & Hm & (_ & Hcoins & _)).
  split; [exact Hp|]. unfold count in *. lia.
Qed.

(** ** The state machine *)

(** How a frame of play ends. *)
Lemma playing_frame_ends (keys : Keys) (g : Game) :
  current_game_state g = GAME_STATE_PLAYING ->
  (current_game_state (fst (playing_frame keys g)) = GAME_STATE_PLAYING
   /\ snd (playing_frame keys g) = PlayingScreen (fst (playing_frame keys g))
   /\ game_over_reason_message (fst (playing_frame keys g))
      = game_over_reason_message g)
  \/ (current_game_state (fst (playing_frame keys g)) = GAME_STATE_GAME_OVER
      /\ snd (playing_frame keys g) = NoScreen
      /\ ending (game_over_reason_message (fst (playing_frame keys g)))).
Proof.
  intros Hplaying. unfold playing_frame, ending.
  pose proof (Player_update_outcome keys g) as Hp.
  set (g1 := Player_update keys g) in *.
  destruct (playing g1) eqn:E1.
  2:{ right. cbn [fst snd]. apply playing_false in E1.
      destruct Hp as [[H1 H2] | [H1 H2]]; [congruence | auto]. }
  apply playing_true in E1.
  pose proof (monsters_group_update_outcome g1) as Hm.
  set (g2 := monsters_group_update g1) in *.
  destruct (playing g2) eqn:E2.
  2:{ right. cbn [fst snd]. apply playing_false in E2.
      destruct Hm as [[H1 H2] | [H1 H2]]; [congruence | auto]. }
  apply playing_true in E2.
  pose proof (portals_group_update_outcome g2) as [Hs Hr].
  set (g3 := portals_group_update g2) in *.
  pose proof (Scoreboard_update_outcome g3) as Hsb.
  set (g4 := Scoreboard_update g3) in *.
  destruct Hp as [[_ Hp] | [Hp _]]; [|congruence].
  destruct Hm as [[_ Hm] | [Hm _]]; [|congruence].
  destruct Hsb as [(_ & Hst & Hmsg) | (_ & Hst & Hmsg)].
  - right.
    assert (E4 : playing g4 = false) by (apply playing_false; congruence).
    rewrite E4. cbn [fst snd]. auto.
  - left.
    assert (E4 : playing g4 = true) by (apply playing_true; congruence).
    rewrite E4. cbn [fst snd]. repeat split; congruence.
Qed.

Lemma place_portal_state (img : Images) (g : Game) :
  current_game_state (place_portal img g) = current_game_state g
  /\ game_over_reason_message (place_portal img g)
     = game_over_reason_message g
  /\ running (place_portal img g) = running g.
Proof. unfold place_portal. by_cases; repeat split. Qed.

(** X6.  What a frame draws tells the state it leaves: the start screen
    is drawn in the start state, the game as it is after its updates is
    drawn during play, the game-over screen shows the stored message and
    the scoreboard's three numbers, and the only frame that draws
    nothing is the frame of play that ends the game. *)
Theorem screen_matches_state
    (img : Images) (events : list Event) (keys : Keys) (g : Game) :
  let g' := fst (frame img events keys g) in
  match snd (frame img events keys g) with
  | StartScreen => current_game_state g' = GAME_STATE_START
  | PlayingScreen shown =>
      shown = g' /\ current_game_state g' = GAME_STATE_PLAYING
  | GameOverScreen reason ghosts coins score =>
      current_game_state g' = GAME_STATE_GAME_OVER
      /\ reason = game_over_reason_message g'
      /\ ghosts = ghosts_busted (scoreboard g')
      /\ coins = coins_collected (scoreboard g')
      /\ score = points (scoreboard g')
  | NoScreen =>
      current_game_state g' = GAME_STATE_GAME_OVER
      /\ ending (game_over_reason_message g')
      /\ current_game_state (fold_left (on_event img) events g)
         = GAME_STATE_PLAYING
  end.
Proof.
  cbv zeta. unfold frame.
  destruct (current_game_state (fold_left (on_event img) events g)) eqn:E;
    cbn [fst snd]; auto.
  destruct (playing_frame_ends keys _ E) as [(H1 & H2 & _) | (H1 & H2 & H3)];
    rewrite H2; auto.
Qed.

(** X7.  In every run the stored message is empty until the game is
    over, and when the game is over it is one of the three endings. *)
Theorem message_follows_state
    (img : Images) (inputs : list (list Event * Keys)) :
  let g := fst (main img inputs) in
  (current_game_state g = GAME_STATE_GAME_OVER ->
   ending (game_over_reason_message g))
  /\ (current_game_state g <> GAME_STATE_GAME_OVER ->
      game_over_reason_message g = "").
Proof.
  cbv zeta.
  apply (run_invariant img (fun g =>
    (current_game_state g = GAME_STATE_GAME_OVER ->
     ending (game_over_reason_message g))
    /\ (current_game_state g <> GAME_STATE_GAME_OVER ->
        game_over_reason_message g = ""))).
  - split; [discriminate | reflexivity].
  - intros g H. exact H.
  - intros g. split; [discriminate | reflexivity].
  - intros g _ H. destruct (place_portal_state img g) as (Hs & Hm & _).
    rewrite Hs, Hm. exact H.
  - intros keys g Hplaying [_ Hempty].
    destruct (playing_frame_ends keys g Hplaying)
      as [(H1 & _ & H3) | (H1 & _ & H3)]; rewrite H1.
    + split; [discriminate|]. intros _. rewrite H3. apply Hempty. congruence.
    + split; [intros _; exact H3 | congruence].
Qed.

Lemma message_follows_state_witness :
  let g := fst (main sample_images budget_spent_inputs) in
  current_game_state g <> GAME_STATE_GAME_OVER
  /\ game_over_reason_message g = "".
Proof.
  cbv zeta.
  assert (H : current_game_state (fst (main sample_images budget_spent_inputs))
              <> GAME_STATE_GAME_OVER) by (vm_compute; discriminate).
  split; [exact H|].
  apply (message_follows_state sample_images budget_spent_inputs), H.
Defined.

(** X8.  The start screen is never seen again: from a game that is not
    in the start state, no input brings the loop back to it. *)
Theorem start_is_left_for_good
    (img : Images) (inputs : list (list Event * Keys)) (g : Game) :
  current_game_state g <> GAME_STATE_START ->
  current_game_state (fst (main_loop img inputs g)) <> GAME_STATE_START.
Proof.
  revert g.
  apply (main_loop_preserves img
           (fun g => current_game_state g <> GAME_STATE_START)).
  apply (frame_preserves img
           (fun g => current_game_state g <> GAME_STATE_START)).
  - intros g event Hg.
    destruct (on_event_cases img g event) as [E | [E | [E | [Hs E]]]];
      rewrite E; try exact Hg; [discriminate|].
    destruct (place_portal_state img g) as (H & _). rewrite H. exact Hg.
  - intros keys g Hplaying _.
    destruct (playing_frame_ends keys g Hplaying) as [(H & _) | (H & _)];
      rewrite H; discriminate.
Qed.

Lemma start_is_left_for_good_witness :
  current_game_state past_the_exit <> GAME_STATE_START
  /\ current_game_state
       (fst (main_loop sample_images [idle; ([KEYDOWN K_r], no_keys)]
                       past_the_exit))
     <> GAME_STATE_START.
Proof.
  assert (H : current_game_state past_the_exit <> GAME_STATE_START)
    by discriminate.
  split; [exact H|].
  apply (start_is_left_for_good sample_images), H.
Defined.

(** Events that are not the restart key, in a game that is over, and
    events that are neither the restart key nor the space bar, on the
    start screen, leave everything but [running] as it is. *)
Lemma still_events (img : Images) (events : list Event) (g : Game) :
  (current_game_state g = GAME_STATE_GAME_OVER
   /\ (forall e, In e events -> e <> KEYDOWN K_r))
  \/ (current_game_state g = GAME_STATE_START
      /\ (forall e, In e events ->
                    e <> KEYDOWN K_r /\ e <> KEYDOWN K_SPACE)) ->
  world (fold_left (on_event img) events g) = world g
  /\ current_game_state (fold_left (on_event img) events g)
     = current_game_state g.
Proof.
  revert g. induction events as [|e events IH]; intros g H;
    [split; reflexivity|].
  cbn [fold_left].
  assert (He : world (on_event img g e) = world g
               /\ current_game_state (on_event img g e)
                  = current_game_state g).
  { destruct H as [[Hs Hno] | [Hs Hno]].
    - specialize (Hno e (or_introl eq_refl)).
      destruct e as [|key|]; cbn [on_event]; try (split; reflexivity).
      unfold on_keydown. destruct key; try contradiction;
        cbn; rewrite Hs; (split; [reflexivity|]);
        first [reflexivity | exact Hs].
    - destruct (Hno e (or_introl eq_refl)) as [Hr Hsp].
      destruct e as [|key|]; cbn [on_event]; try (split; reflexivity).
      unfold on_keydown. destruct key; try contradiction;
        cbn; rewrite Hs; (split; [reflexivity|]);
        first [reflexivity | exact Hs]. }
  destruct He as [Hw Hst].
  destruct (IH (on_event img g e)) as [H1 H2].
  { rewrite Hst. destruct H as [[Hs Hno] | [Hs Hno]]; [left | right];
      (split; [exact Hs | intros e' He'; apply Hno; right; exact He']). }
  split; congruence.
Qed.

(** X9.  Nothing moves on the game-over screen or on the start screen.
    A frame in a game that is over whose events do not include the R
    key leaves the world as it is and draws the game-over screen with
    the same message and numbers; a frame on the start screen whose
    events include neither R nor the space bar leaves the world as it
    is and draws the start screen.  The keys held play no part. *)
Theorem still_screens_are_still
    (img : Images) (events : list Event) (keys : Keys) (g : Game) :
  (current_game_state g = GAME_STATE_GAME_OVER ->
   (forall e, In e events -> e <> KEYDOWN K_r) ->
   world (fst (frame img events keys g)) = world g
   /\ current_game_state (fst (frame img events keys g))
      = GAME_STATE_GAME_OVER
   /\ snd (frame img events keys g)
      = GameOverScreen (game_over_reason_message g)
                       (ghosts_busted (scoreboard g))
                       (coins_collected (scoreboard g))
                       (points (scoreboard g)))
  /\ (current_game_state g = GAME_STATE_START ->
      (forall e, In e events -> e <> KEYDOWN K_r /\ e <> KEYDOWN K_SPACE) ->
      world (fst (frame img events keys g)) = world g
      /\ current_game_state (fst (frame img events keys g))
         = GAME_STATE_START
      /\ snd (frame img events keys g) = StartScreen).
Proof.
  split; intros Hs Hno.
  - destruct (still_events img events g (or_introl (conj Hs Hno)))
      as [Hw Hst].
    unfold frame. rewrite Hst, Hs. cbn [fst snd].
    split; [exact Hw|]. split; [congruence|].
    unfold world in Hw. injection Hw as H1 _ _ _ _ _ H7.
    rewrite H1, H7. reflexivity.
  - destruct (still_events img events g (or_intror (conj Hs Hno)))
      as [Hw Hst].
    unfold frame. rewrite Hst, Hs. cbn [fst snd].
    split; [exact Hw|]. split; [congruence | reflexivity].
Qed.

Lemma still_screens_are_still_witness :
  let over := fst (frame sample_images [] no_keys last_coin) in
  current_game_state over = GAME_STATE_GAME_OVER
  /\ world (fst (frame sample_images [KEYDOWN K_SPACE; OTHER_EVENT]
                       (mkKeys true false true false) over))
     = world over
  /\ snd (frame sample_images [KEYDOWN K_other] no_keys
                (main_start sample_images))
     = StartScreen.
Proof.
  cbv zeta.
  assert (Hover : current_game_state
                    (fst (frame sample_images [] no_keys last_coin))
                  = GAME_STATE_GAME_OVER) by (vm_compute; reflexivity).
  split; [exact Hover|]. split.
  - destruct (still_screens_are_still sample_images
                [KEYDOWN K_SPACE; OTHER_EVENT] (mkKeys true false true false)
                (fst (frame sample_images [] no_keys last_coin)))
      as [Hstill _].
    apply Hstill; [exact Hover|].
    intros e [<- | [<- | []]]; discriminate.
  - destruct (still_screens_are_still sample_images [KEYDOWN K_other] no_keys
                (main_start sample_images)) as [_ Hstill].
    apply Hstill; [reflexivity|].
    intros e [<- | []]. split; discriminate.
Defined.

(** ** Quitting *)

Lemma on_event_running (img : Images) (g : Game) (event : Event) :
  (running g = false -> running (on_event img g event) = false)
  /\ (quits event -> running (on_event img g event) = false).
Proof.
  split.
  - intros H.
    destruct (on_event_cases img g event) as [E | [E | [E | [_ E]]]];
      rewrite E; try exact H; try reflexivity.
    destruct (place_portal_state img g) as (_ & _ & Hr). congruence.
  - intros [-> | ->]; [reflexivity|].
    cbn [on_event]. unfold on_keydown.
    destruct (current_game_state (with_running false g)); reflexivity.
Qed.

Lemma events_running (img : Images) (events : list Event) (g : Game) :
  running g = false \/ (exists e, In e events /\ quits e) ->
  running (fold_left (on_event img) events g) = false.
Proof.
  revert g. induction events as [|e events IH]; intros g H.
  - destruct H as [H | (e & [] & _)]. exact H.
  - cbn [fold_left]. apply IH.
    destruct (on_event_running img g e) as [Hkeep Hquit].
    destruct H as [H | (e' & [<- | Hin] & Hq)]; auto.
    right. exists e'. auto.
Qed.

Lemma playing_frame_running (keys : Keys) (g : Game) :
  running (fst (playing_frame keys g)) = running g.
Proof.
  apply (playing_frame_preserves (fun g' => running g' = running g));
    [| | | | |reflexivity].
  - intros keys0 g0 H. unfold Player_update. by_cases; exact H.
  - intros m g0 H. unfold Monster_update. by_cases; exact H.
  - intros ms g0 H. exact H.
  - intros p g0 H. unfold Portal_update. by_cases; exact H.
  - intros g0 H. unfold Scoreboard_update. by_cases; exact H.
Qed.

(** X10.  A frame that receives the QUIT event or the Q key is the last
    one: it is run to its end, whatever else its events hold, [running]
    is false after it, and the loop runs no later frame. *)
Theorem quit_ends_the_loop
    (img : Images) (events : list Event) (keys : Keys)
    (later : list (list Event * Keys)) (g : Game) :
  running g = true ->
  (exists e, In e events /\ quits e) ->
  running (fst (frame img events keys g)) = false
  /\ main_loop img ((events, keys) :: later) g
     = (fst (frame img events keys g), [snd (frame img events keys g)]).
Proof.
  intros Hrun Hquit.
  assert (H : running (fst (frame img events keys g)) = false).
  { unfold frame.
    pose proof (events_running img events g (or_intror Hquit)) as He.
    destruct (current_game_state (fold_left (on_event img) events g));
      cbn [fst]; [exact He | | exact He].
    rewrite playing_frame_running. exact He. }
  split; [exact H|].
  cbn [main_loop]. rewrite Hrun.
  destruct (frame img events keys g) as [g1 s]. cbn [fst snd] in *.
  destruct later as [|[events' keys'] later]; [reflexivity|].
  cbn [main_loop]. rewrite H. reflexivity.
Qed.

Lemma quit_ends_the_loop_witness :
  let first := ([KEYDOWN K_SPACE; KEYDOWN K_q], no_keys) in
  running (main_start sample_images) = true
  /\ List.length (snd (main sample_images [first; idle; idle])) = 1%nat.
Proof.
  cbv zeta.
  split; [reflexivity|].
  unfold main.
  rewrite (proj2 (quit_ends_the_loop sample_images
                    [KEYDOWN K_SPACE; KEYDOWN K_q] no_keys [idle; idle]
                    (main_start sample_images) eq_refl
                    (ex_intro _ (KEYDOWN K_q)
                       (conj (or_intror (or_introl eq_refl))
                             (or_intror eq_refl))))).
  reflexivity.
Defined.

(** ** When a ghost ends the game *)

Lemma update_each_catches (sprites : list Monster) (g : Game) :
  current_game_state g = GAME_STATE_PLAYING ->
  if existsb (fun m => colliderect (player_rect (player_group g))
                                   (monster_rect m)) sprites
  then current_game_state (snd (update_each sprites g)) = GAME_STATE_GAME_OVER
       /\ game_over_reason_message (snd (update_each sprites g))
          = caught_message
  else current_game_state (snd (update_each sprites g)) = GAME_STATE_PLAYING
       /\ game_over_reason_message (snd (update_each sprites g))
          = game_over_reason_message g.
Proof.
  revert g. induction sprites as [|m rest IH]; intros g Hplaying;
    [cbn; auto|].
  cbn [existsb update_each].
  destruct (colliderect (player_rect (player_group g)) (monster_rect m))
    eqn:Ehit; cbn [orb].
  - rewrite (Monster_update_on_player m g Ehit).
    pose proof (update_each_outcome rest
                  (set_game_state GAME_STATE_GAME_OVER caught_message g)) as H.
    destruct (update_each rest _) as [ms g2]. cbn [snd] in *.
    destruct H as [[H1 H2] | [H1 H2]]; auto.
  - pose proof (Monster_update_player m g) as Hp.
    assert (Hs : current_game_state (snd (Monster_update m g))
                 = GAME_STATE_PLAYING
                 /\ game_over_reason_message (snd (Monster_update m g))
                    = game_over_reason_message g).
    { rewrite (Monster_update_on_portal m g Ehit). cbv zeta.
      destruct (spritecollideany _ _ _); cbn; auto. }
    destruct Hs as [Hs Hm].
    destruct (Monster_update m g) as [f g1]. cbn [snd] in *.
    specialize (IH g1 Hs). rewrite Hp, Hm in IH.
    destruct (update_each rest g1) as [ms g2]. exact IH.
Qed.

Lemma update_each_points (sprites : list Monster) (g : Game) :
  points (scoreboard (snd (update_each sprites g))) = points (scoreboard g).
Proof.
  revert g. induction sprites as [|m rest IH]; intros g; [reflexivity|].
  cbn [update_each].
  assert (Hm : points (scoreboard (snd (Monster_update m g)))
               = points (scoreboard g))
    by (unfold Monster_update; by_cases).
  destruct (Monster_update m g) as [f g1].
  specialize (IH g1).
  destruct (update_each rest g1) as [ms g2]. cbn [snd] in *. congruence.
Qed.

(** X11.  In a frame of play in which the player is not past the exit,
    a ghost ends the game exactly when some monster, where it stood
    before this frame's move, is on the player where the player stands
    after this frame's move.  The timer and the score are not updated
    in that frame.  A monster that only reaches the player by its own
    move catches it in the next frame. *)
Theorem ghost_catches_exactly_when
    (keys : Keys) (g : Game) :
  current_game_state g = GAME_STATE_PLAYING ->
  right (player_rect (player_group g)) <= 1050 ->
  let g1 := Player_update keys g in
  let g' := fst (playing_frame keys g) in
  (monster_on_player g1 = true <->
   current_game_state g' = GAME_STATE_GAME_OVER
   /\ game_over_reason_message g' = caught_message)
  /\ (monster_on_player g1 = true ->
      time_left (scoreboard g') = time_left (scoreboard g)
      /\ points (scoreboard g') = points (scoreboard g)
      /\ snd (playing_frame keys g) = NoScreen).
Proof.
  intros Hplaying Hexit. cbv zeta.
  assert (H1 : current_game_state (Player_update keys g)
               = GAME_STATE_PLAYING
               /\ points (scoreboard (Player_update keys g))
                  = points (scoreboard g)).
  { unfold Player_update. apply Z.ltb_ge in Hexit. rewrite Hexit.
    by_cases; cbn; auto. }
  destruct H1 as [H1 Hpts].
  pose proof (Player_update_clock keys g) as Hclock.
  set (g1 := Player_update keys g) in *.
  pose proof (update_each_catches (monsters_group g1) g1 H1) as Hloop.
  fold (monster_on_player g1) in Hloop.
  pose proof (update_each_clock (monsters_group g1) g1) as Hc2.
  pose proof (update_each_points (monsters_group g1) g1) as Hp2.
  unfold playing_frame. fold g1.
  assert (E1 : playing g1 = true) by (apply playing_true; exact H1).
  rewrite E1.
  unfold monsters_group_update in *.
  destruct (update_each (monsters_group g1) g1) as [ms g2].
  cbn [snd] in *.
  destruct (monster_on_player g1).
  - destruct Hloop as [Hs Hm].
    assert (E2 : playing (with_monsters ms g2) = false)
      by (apply playing_false; cbn; congruence).
    rewrite E2. cbn [fst snd].
    split; [split; [intros _; split; [exact Hs | exact Hm] | reflexivity]|].
    intros _. fold (clock (with_monsters ms g2)). fold (clock g).
    split; [unfold clock in *; cbn; congruence|].
    split; [cbn in *; congruence | reflexivity].
  - destruct Hloop as [Hs Hm].
    assert (E2 : playing (with_monsters ms g2) = true)
      by (apply playing_true; exact Hs).
    rewrite E2.
    split; [|discriminate].
    split; [discriminate|]. intros [Hover Hmsg]. exfalso.
    set (g3 := portals_group_update (with_monsters ms g2)) in *.
    pose proof (portals_group_update_outcome (with_monsters ms g2))
      as [Hs3 Hm3].
    fold g3 in Hs3, Hm3.
    destruct (Scoreboard_update_outcome g3) as [(_ & Hs4 & Hm4) | (_ & Hs4 & Hm4)].
    + assert (E3 : playing (Scoreboard_update g3) = false)
        by (apply playing_false; congruence).
      rewrite E3 in Hmsg. cbn [fst] in Hmsg.
      rewrite Hm4 in Hmsg. discriminate.
    + assert (E3 : playing (Scoreboard_update g3) = true)
        by (apply playing_true; cbn in *; congruence).
      rewrite E3 in Hover. cbn [fst] in Hover.
      apply playing_true in E3. congruence.
Qed.

Lemma ghost_catches_exactly_when_witness :
  current_game_state last_coin = GAME_STATE_PLAYING
  /\ right (player_rect (player_group last_coin)) <= 1050
  /\ monster_on_player (Player_update no_keys last_coin) = true
  /\ game_over_reason_message (fst (playing_frame no_keys last_coin))
     = caught_message.
Proof.
  assert (Hexit : right (player_rect (player_group last_coin)) <= 1050)
    by (vm_compute; discriminate).
  assert (Hon : monster_on_player (Player_update no_keys last_coin) = true)
    by (vm_compute; reflexivity).
  split; [reflexivity|]. split; [exact Hexit|]. split; [exact Hon|].
  apply (proj1 (ghost_catches_exactly_when no_keys last_coin eq_refl Hexit)).
  exact Hon.
Defined.

(** ** Walls *)

Ltac split_ifs :=
  repeat match goal with
         | |- context [if ?c then _ else _] =>
             lazymatch c with
             | context [if _ then _ else _] => fail
             | _ => destruct c eqn:?
             end
         end.

Lemma Player_move_clear (keys : Keys) (self : Player) (walls : list Wall) :
  clear_of walls (player_rect self) ->
  clear_of walls (Player_move keys self walls).
Proof.
  unfold clear_of, Player_move.
  destruct self as [[rx ry rw rh] s pos].
  cbn [player_rect player_speed set_x set_y x y w h].
  intros H. split_ifs;
    unfold set_x, set_y in *; cbn [x y w h] in *; congruence.
Qed.

Lemma Monster_move_clear (self : Monster) (walls : list Wall) :
  clear_of walls (monster_rect self) ->
  clear_of walls (monster_rect (Monster_move self walls)).
Proof.
  unfold clear_of, Monster_move, move_x, move_y.
  destruct self as [[rx ry rw rh] s d].
  cbn [monster_rect speed direction set_x set_y x y w h].
  intros H. split_ifs;
    unfold set_x, set_y in *; cbn [monster_rect x y w h] in *; congruence.
Qed.

(** X12.  The player is never in a wall: if the player's image is such
    that the spawn rectangle meets no wall, then in every run the
    player's rectangle meets no wall. *)
Theorem player_stays_out_of_walls
    (img : Images) (inputs : list (list Event * Keys)) :
  clear_of the_walls (player_rect (Player_init img (100, 200) 3)) ->
  clear_of the_walls (player_rect (player_group (fst (main img inputs)))).
Proof.
  intros Hspawn.
  apply (run_invariant img (fun g =>
    walls_group g = the_walls
    /\ clear_of the_walls (player_rect (player_group g)))).
  - split; [reflexivity | exact Hspawn].
  - intros g H. exact H.
  - intros g. split; [reflexivity | exact Hspawn].
  - intros g _ H. unfold place_portal. by_cases; exact H.
  - intros keys g _.
    apply (playing_frame_preserves (fun g =>
      walls_group g = the_walls
      /\ clear_of the_walls (player_rect (player_group g)))).
    + intros keys0 g0 [Hw Hc]. unfold Player_update.
      destruct (1050 <? _); [split; assumption|].
      assert (Hm : clear_of the_walls
                     (Player_move keys0 (player_group g0) (walls_group g0)))
        by (rewrite Hw; apply Player_move_clear, Hc).
      by_cases; split; assumption.
    + intros m g0 H. unfold Monster_update. by_cases; exact H.
    + intros ms g0 H. exact H.
    + intros p g0 H. unfold Portal_update. by_cases; exact H.
    + intros g0 H. unfold Scoreboard_update. by_cases; exact H.
Qed.

Lemma player_stays_out_of_walls_witness :
  clear_of the_walls
    (player_rect (Player_init sample_images (100, 200) 3))
  /\ clear_of the_walls
       (player_rect (player_group
          (fst (main sample_images to_the_corridor)))).
Proof.
  assert (H : clear_of the_walls
                (player_rect (Player_init sample_images (100, 200) 3)))
    by (vm_compute; reflexivity).
  split; [exact H|].
  apply (player_stays_out_of_walls sample_images to_the_corridor H).
Defined.

(** ** Monsters *)

(** A property of each monster of the group is kept by a frame of play
    when a monster that survives its [update] keeps it. *)
Lemma playing_frame_monsters (I : Game -> Prop) (Q : Monster -> Prop) :
  (forall keys g, I g -> I (Player_update keys g)) ->
  (forall m g, I g -> I (snd (Monster_update m g))) ->
  (forall m g m', I g -> Q m -> fst (Monster_update m g) = Alive m' -> Q m') ->
  forall keys g,
    I g -> Forall Q (monsters_group g) ->
    Forall Q (monsters_group (fst (playing_frame keys g))).
Proof.
  intros Hplayer Hkeep Hmonster keys g Hg HQ.
  assert (Hloop : forall sprites g1,
             I g1 -> Forall Q sprites ->
             Forall Q (fst (update_each sprites g1))).
  { induction sprites as [|m rest IH]; intros g1 H1 HF; [constructor|].
    cbn [update_each]. inversion HF as [|? ? Hm Hrest]; subst.
    specialize (Hkeep m g1 H1). specialize (Hmonster m g1).
    destruct (Monster_update m g1) as [f g2]. cbn [fst snd] in *.
    specialize (IH g2 Hkeep Hrest).
    destruct (update_each rest g2) as [ms g3]. cbn [fst].
    apply Forall_app. split; [|exact IH].
    destruct f as [m'|]; cbn [survivor]; constructor; [|constructor].
    apply (Hmonster m' H1 Hm eq_refl). }
  assert (Hms : forall g1, I g1 -> Forall Q (monsters_group g1) ->
                           Forall Q (monsters_group (monsters_group_update g1))).
  { intros g1 H1 HF. unfold monsters_group_update.
    specialize (Hloop (monsters_group g1) g1 H1 HF).
    destruct (update_each (monsters_group g1) g1) as [ms g2]. exact Hloop. }
  assert (Hps : forall g1, Forall Q (monsters_group g1) ->
                           Forall Q (monsters_group (portals_group_update g1))).
  { intros g1 HF. apply Forall_forall. intros m Hin.
    apply portals_group_update_monsters in Hin.
    revert m Hin. apply Forall_forall. exact HF. }
  assert (H1 : Forall Q (monsters_group (Player_update keys g)))
    by (rewrite Player_update_monsters; exact HQ).
  unfold playing_frame.
  repeat match goal with
         | |- context [if playing ?a then _ else _] => destruct (playing a)
         end; cbn [fst];
    rewrite ?Scoreboard_update_monsters; auto.
Qed.

Lemma Player_update_walls (keys : Keys) (g : Game) :
  walls_group (Player_update keys g) = walls_group g.
Proof. unfold Player_update. by_cases. Qed.

Lemma Monster_update_walls (m : Monster) (g : Game) :
  walls_group (snd (Monster_update m g)) = walls_group g.
Proof. unfold Monster_update. by_cases. Qed.

Lemma Monster_update_alive (m m' : Monster) (g : Game) :
  fst (Monster_update m g) = Alive m' ->
  m' = stopped m \/ m' = Monster_move m (walls_group g).
Proof.
  unfold Monster_update.
  destruct (truthy _); cbn [fst]; [intros H; injection H as <-; auto|].
  destruct (truthy _); cbn [fst]; [discriminate|].
  intros H; injection H as <-; auto.
Qed.

(** X13.  No monster is ever in a wall: if the monsters' image is such
    that no monster of the layout starts in a wall, then in every run
    every monster of the group meets no wall. *)
Theorem monsters_stay_out_of_walls
    (img : Images) (inputs : list (list Event * Keys)) :
  Forall (fun m => clear_of the_walls (monster_rect m)) (the_monsters img) ->
  Forall (fun m => clear_of the_walls (monster_rect m))
         (monsters_group (fst (main img inputs))).
Proof.
  intros Hstart.
  apply (run_invariant img (fun g =>
    walls_group g = the_walls
    /\ Forall (fun m => clear_of the_walls (monster_rect m))
              (monsters_group g))).
  - split; [reflexivity | exact Hstart].
  - intros g H. exact H.
  - intros g. split; [reflexivity | exact Hstart].
  - intros g _ H. unfold place_portal. by_cases; exact H.
  - intros keys g _ [Hw HF]. split.
    + apply (playing_frame_preserves (fun g => walls_group g = the_walls));
        auto.
      * intros keys0 g0 H. rewrite Player_update_walls. exact H.
      * intros m g0 H. rewrite Monster_update_walls. exact H.
      * intros p g0 H. unfold Portal_update. by_cases; exact H.
      * intros g0 H. unfold Scoreboard_update. by_cases; exact H.
    + apply (playing_frame_monsters (fun g => walls_group g = the_walls));
        auto.
      * intros keys0 g0 H. rewrite Player_update_walls. exact H.
      * intros m g0 H. rewrite Monster_update_walls. exact H.
      * intros m g0 m' H0 Hm Halive.
        destruct (Monster_update_alive m m' g0 Halive) as [-> | ->];
          [exact Hm|].
        rewrite H0. apply Monster_move_clear, Hm.
Qed.

Lemma monsters_stay_out_of_walls_witness :
  Forall (fun m => clear_of the_walls (monster_rect m))
         (the_monsters sample_images)
  /\ Forall (fun m => clear_of the_walls (monster_rect m))
            (monsters_group (fst (main sample_images to_the_corridor))).
Proof.
  assert (H : Forall (fun m => clear_of the_walls (monster_rect m))
                     (the_monsters sample_images)).
  { apply Forall_forall. intros m Hin.
    assert (Hall : forallb (fun m => negb (spritecollideany wall_rect
                                             (monster_rect m) the_walls))
                           (the_monsters sample_images) = true)
      by (vm_compute; reflexivity).
    rewrite forallb_forall in Hall. specialize (Hall m Hin).
    apply negb_true_iff in Hall. exact Hall. }
  split; [exact H|].
  apply (monsters_stay_out_of_walls sample_images to_the_corridor H).
Defined.

Lemma neg_neg (v : number) : neg (neg v) = v.
Proof.
  destruct v as [k | f]; cbn [neg]; f_equal; [apply Z.opp_involutive|].
  apply Prim2SF_inj. rewrite !opp_spec.
  destruct (Prim2SF f) as [s | s | | s m e]; cbn;
    rewrite ?negb_involutive; reflexivity.
Qed.

Lemma patrols_refl (m : Monster) : patrols m m.
Proof. unfold patrols. repeat split; auto. Qed.

Lemma Monster_move_patrols (m0 m : Monster) (walls : list Wall) :
  patrols m0 m -> patrols m0 (Monster_move m walls).
Proof.
  unfold patrols. intros (Hd & Hw & Hh & Hy & Hx & Hs).
  assert (Hneg : neg (speed m) = speed m0 \/ neg (speed m) = neg (speed m0)
                 \/ neg (speed m) = PyInt 0).
  { destruct Hs as [-> | [-> | ->]]; [auto | | auto].
    left. apply neg_neg. }
  unfold Monster_move, move_x, move_y.
  destruct (direction m =? "horizontal")%string eqn:Eh.
  - apply String.eqb_eq in Eh.
    assert (Hv : direction m0 = "vertical" -> False)
      by (intros Hv; rewrite <- Hd, Eh in Hv; discriminate).
    destruct (monster_rect m) as [rx ry rw rh].
    destruct (spritecollideany _ _ _);
      unfold set_x in *; cbn [monster_rect speed direction x y w h] in *;
      repeat split; auto; intros H; contradiction (Hv H).
  - destruct (direction m =? "vertical")%string eqn:Ev;
      [|repeat split; auto].
    apply String.eqb_eq in Ev.
    assert (Hv : direction m0 = "horizontal" -> False)
      by (intros Hv; rewrite <- Hd, Ev in Hv; discriminate).
    destruct (monster_rect m) as [rx ry rw rh].
    destruct (spritecollideany _ _ _);
      unfold set_y in *; cbn [monster_rect speed direction x y w h] in *;
      repeat split; auto; intros H; contradiction (Hv H).
Qed.

(** X14.  Monsters patrol.  In every run each monster of the group is
    one of the twelve of the layout somewhere on its line: it has that
    monster's direction and size, the same y if that monster is
    horizontal and the same x if it is vertical, and its speed is that
    monster's speed, the opposite of it, or 0. *)
Theorem monsters_patrol
    (img : Images) (inputs : list (list Event * Keys)) :
  Forall (fun m => Exists (fun m0 => patrols m0 m) (the_monsters img))
         (monsters_group (fst (main img inputs))).
Proof.
  assert (Hstart : Forall (fun m => Exists (fun m0 => patrols m0 m)
                                           (the_monsters img))
                          (the_monsters img)).
  { apply Forall_forall. intros m Hin. apply Exists_exists.
    exists m. split; [exact Hin | apply patrols_refl]. }
  apply (run_invariant img (fun g =>
    Forall (fun m => Exists (fun m0 => patrols m0 m) (the_monsters img))
           (monsters_group g))).
  - exact Hstart.
  - intros g H. exact H.
  - intros g. exact Hstart.
  - intros g _ H. unfold place_portal. by_cases; exact H.
  - intros keys g _ HF.
    apply (playing_frame_monsters (fun _ => True)); auto.
    intros m g0 m' _ Hm Halive.
    apply Exists_exists in Hm. destruct Hm as (m0 & Hin & Hp).
    apply Exists_exists. exists m0. split; [exact Hin|].
    destruct (Monster_update_alive m m' g0 Halive) as [-> | ->].
    + unfold patrols, stopped in *. cbn [monster_rect speed direction].
      destruct Hp as (Hd & Hw & Hh & Hy & Hx & Hs). repeat split; auto.
    + apply Monster_move_patrols, Hp.
Qed.

(** ** The player's step *)

Lemma Player_move_no_keys (self : Player) (walls : list Wall) :
  Player_move no_keys self walls = player_rect self.
Proof.
  unfold Player_move, no_keys. cbn [K_LEFT K_RIGHT K_UP K_DOWN].
  destruct (player_rect self) as [rx ry rw rh].
  split_ifs; reflexivity.
Qed.

(** X15.  One step of the player.  The size of the rectangle is kept.
    On each axis the player stays or moves by exactly its speed: left
    when the left key is held, right only when the right key is held
    and the left key is not, and likewise up before down.  With no key
    of an axis held the player stays on that axis, also when it stands
    in a wall. *)
Theorem player_steps (keys : Keys) (self : Player) (walls : list Wall) :
  let r := player_rect self in
  let r' := Player_move keys self walls in
  let s := player_speed self in
  w r' = w r /\ h r' = h r
  /\ (x r' = x r
      \/ (K_LEFT keys = true /\ x r' = x r - s)
      \/ (K_LEFT keys = false /\ K_RIGHT keys = true /\ x r' = x r + s))
  /\ (y r' = y r
      \/ (K_UP keys = true /\ y r' = y r - s)
      \/ (K_UP keys = false /\ K_DOWN keys = true /\ y r' = y r + s))
  /\ (K_LEFT keys = false -> K_RIGHT keys = false -> x r' = x r)
  /\ (K_UP keys = false -> K_DOWN keys = false -> y r' = y r).
Proof.
  cbv zeta. unfold Player_move.
  destruct self as [[rx ry rw rh] s pos].
  cbn [player_rect player_speed].
  split_ifs; unfold set_x, set_y; cbn [x y w h];
    repeat split; auto; intros; congruence.
Qed.

Lemma player_steps_witness :
  let self := Player_init sample_images (100, 200) 3 in
  K_LEFT (mkKeys false false true true) = false
  /\ K_RIGHT (mkKeys false false true true) = false
  /\ x (Player_move (mkKeys false false true true) self the_walls)
     = x (player_rect self).
Proof.
  cbv zeta.
  split; [reflexivity|]. split; [reflexivity|].
  apply (player_steps (mkKeys false false true true)
           (Player_init sample_images (100, 200) 3) the_walls); reflexivity.
Defined.

(** ** Where sprites are built *)

Lemma get_rect_center (size position : Z * Z) :
  centerx (get_rect size position) = fst position
  /\ centery (get_rect size position) = snd position
  /\ w (get_rect size position) = fst size
  /\ h (get_rect size position) = snd size.
Proof. unfold centerx, centery, get_rect. cbn [x y w h]. repeat split; lia. Qed.

(** X16.  Every sprite that is built from an image has the size of the
    image and its centre on the position it is given: the player, the
    monsters, the coins, and a portal, which [place_portal] therefore
    centres on the player. *)
Theorem sprites_are_centred (img : Images) (position : Z * Z) :
  (forall s,
      centerx (player_rect (Player_init img position s)) = fst position
      /\ centery (player_rect (Player_init img position s)) = snd position)
  /\ (forall s d,
         centerx (monster_rect (Monster_init img position s d)) = fst position
         /\ centery (monster_rect (Monster_init img position s d))
            = snd position)
  /\ (centerx (coin_rect (Coin_init img position)) = fst position
      /\ centery (coin_rect (Coin_init img position)) = snd position)
  /\ (forall g,
         centerx (portal_rect (fst (Portal_init img position g)))
         = fst position
         /\ centery (portal_rect (fst (Portal_init img position g)))
            = snd position)
  /\ (forall g,
         0 < budget g ->
         exists p,
           portals_group (place_portal img g) = portals_group g ++ [p]
           /\ centerx (portal_rect p) = centerx (player_rect (player_group g))
           /\ centery (portal_rect p) = centery (player_rect (player_group g))
           /\ w (portal_rect p) = fst (door_png img)
           /\ h (portal_rect p) = snd (door_png img)).
Proof.
  repeat split; try apply get_rect_center.
  intros g Hbudget. unfold place_portal. fold (budget g).
  apply Z.ltb_lt in Hbudget. rewrite Hbudget.
  eexists. split; [reflexivity|]. cbn [fst Portal_init portal_rect].
  destruct (get_rect_center (door_png img)
              (centerx (player_rect (player_group g)),
               centery (player_rect (player_group g))))
    as (H1 & H2 & H3 & H4).
  auto.
Qed.

Lemma sprites_are_centred_witness :
  let g := restart sample_images (main_start sample_images) in
  0 < budget g
  /\ exists p,
       portals_group (place_portal sample_images g) = portals_group g ++ [p]
       /\ centerx (portal_rect p) = 100.
Proof.
  cbv zeta.
  assert (H : 0 < budget (restart sample_images (main_start sample_images)))
    by (vm_compute; reflexivity).
  split; [exact H|].
  destruct (sprites_are_centred sample_images (0, 0))
    as (_ & _ & _ & _ & Hplace).
  destruct (Hplace _ H) as (p & Hp & Hx & _).
  exists p. split; [exact Hp|]. rewrite Hx. vm_compute. reflexivity.
Defined.

(** ** The time on the screen *)

Lemma on_event_timer_inv (img : Images) (g : Game) (event : Event) :
  timer_inv g -> timer_inv (on_event img g event).
Proof.
  intros (k & Hk & Hclock & Hrun).
  destruct (on_event_clock img g event) as [H0 | [Hc Hs]].
  - exists 0%nat. split; [apply Nat.le_0_l|].
    split; [exact H0 | intros _; apply last_tick_positive].
  - exists k. rewrite Hc, Hs. auto.
Qed.

Lemma playing_frame_timer_inv (keys : Keys) (g : Game) :
  current_game_state g = GAME_STATE_PLAYING ->
  timer_inv g -> timer_inv (fst (playing_frame keys g)).
Proof.
  intros Hplaying (k & Hk & Hclock & Hrun).
  specialize (Hrun Hplaying).
  destruct (playing_frame_timer keys g Hplaying)
    as [(Hc & Hs & _) | [(Hc & Hle & Hs & _) | (Hc & Hle & Hs)]].
  - exists k. rewrite Hc, Hs. repeat split; try assumption. discriminate.
  - exists (S k). rewrite Hc, Hs, Hclock.
    repeat split; [exact Hrun | discriminate].
  - exists (S k). rewrite Hc, Hclock.
    split; [exact Hrun|]. split; [reflexivity|].
    intros _. apply Nat.le_neq. split; [exact Hrun|].
    intros Heq. rewrite Hc, Hclock in Hle.
    change (tick_down (time_after k)) with (time_after (S k)) in Hle.
    rewrite Heq, time_after_last in Hle. discriminate.
Qed.

(** X17.  Whenever the game is drawn during play, [time_left] is above
    0: the [max(0, time_left)] of [Scoreboard.draw] always yields
    [time_left] itself, and a time at or below 0 is never on the
    screen. *)
Theorem time_on_screen_is_positive
    (img : Images) (inputs : list (list Event * Keys)) :
  Forall (fun s =>
            match s with
            | PlayingScreen shown =>
                (0 <? time_left (scoreboard shown))%float = true
                /\ shown_time (scoreboard shown)
                   = PyFloat (time_left (scoreboard shown))
            | _ => True
            end)
         (snd (main img inputs)).
Proof.
  unfold main.
  apply (main_loop_screens img timer_inv).
  - intros events keys g Hg. unfold frame.
    pose proof (events_preserve img timer_inv (on_event_timer_inv img)
                  events g Hg) as He.
    destruct (current_game_state (fold_left (on_event img) events g)) eqn:E;
      cbn [fst snd]; [split; [exact He | exact I] | | split; [exact He | exact I]].
    pose proof (playing_frame_timer_inv keys _ E He) as Hinv.
    split; [exact Hinv|].
    destruct (playing_frame_ends keys _ E) as [(H1 & H2 & _) | (_ & H2 & _)];
      rewrite H2; [|exact I].
    destruct Hinv as (k & _ & Hclock & Hrun).
    destruct (time_after_running k (Hrun H1)) as (Hpos & _).
    unfold clock in Hclock. unfold shown_time.
    rewrite Hclock, Hpos. split; reflexivity.
  - exists 0%nat. split; [apply Nat.le_0_l|].
    split; [reflexivity | intros _; apply last_tick_positive].
Qed.

(** ** Coins are not picked up twice *)

(** X18.  After the player's update no coin left in the group is under
    the player, and a second update with no key held changes neither
    the coins nor [coins_collected]: a coin is collected once. *)
Theorem coins_are_collected_once (keys : Keys) (g : Game) :
  let g1 := Player_update keys g in
  (right (player_rect (player_group g)) <= 1050 ->
   forall c, In c (coins_group g1) ->
             colliderect (player_rect (player_group g1)) (coin_rect c)
             = false)
  /\ ((forall c, In c (coins_group g) ->
                 colliderect (player_rect (player_group g)) (coin_rect c)
                 = false) ->
      coins_group (Player_update no_keys g) = coins_group g
      /\ coins_collected (scoreboard (Player_update no_keys g))
         = coins_collected (scoreboard g)).
Proof.
  cbv zeta. split.
  - intros Hexit c. unfold Player_update.
    apply Z.ltb_ge in Hexit. rewrite Hexit.
    destruct (truthy _) eqn:E; cbn [coins_group player_group with_player
      with_scoreboard with_coins player_rect].
    + apply after_dokill_clear.
    + rewrite truthy_spritecollide in E.
      apply (proj1 (spritecollideany_false _ _ _ _) E).
  - intros Hclear. unfold Player_update.
    destruct (1050 <? _); [split; reflexivity|].
    rewrite Player_move_no_keys.
    cbn [coins_group with_player].
    rewrite truthy_spritecollide.
    replace (spritecollideany coin_rect (player_rect (player_group g))
                              (coins_group g)) with false
      by (symmetry; apply spritecollideany_false; exact Hclear).
    split; reflexivity.
Qed.

Lemma coins_are_collected_once_witness :
  let g1 := Player_update no_keys two_coins in
  right (player_rect (player_group two_coins)) <= 1050
  /\ coins_group g1 = [far_coin]
  /\ coins_group (Player_update no_keys g1) = coins_group g1
  /\ coins_collected (scoreboard (Player_update no_keys g1))
     = coins_collected (scoreboard g1).
Proof.
  cbv zeta.
  assert (Hexit : right (player_rect (player_group two_coins)) <= 1050)
    by (vm_compute; discriminate).
  split; [exact Hexit|]. split; [vm_compute; reflexivity|].
  apply (proj2 (coins_are_collected_once no_keys
                  (Player_update no_keys two_coins))).
  apply (proj1 (coins_are_collected_once no_keys two_coins) Hexit).
Defined.

(** ** The portals' update *)

(** X19.  In a frame of play the portals' update never finds a monster.
    When the monsters' loop ends with the game still in play, no
    monster of the group is on a portal of the group: a monster that
    reached a portal was killed in the loop, with the portal.  So
    [Portal.update] changes nothing for any portal, and neither does
    the loop over the portals. *)
Theorem portals_update_is_idle (keys : Keys) (g : Game) :
  let g2 := monsters_group_update (Player_update keys g) in
  current_game_state g2 = GAME_STATE_PLAYING ->
  apart g2
  /\ (forall p, In p (portals_group g2) -> Portal_update p g2 = g2)
  /\ portals_group_update g2 = g2.
Proof.
  cbv zeta. intros Hplaying.
  pose proof (monsters_group_update_apart _ Hplaying) as Hapart.
  split; [exact Hapart|]. split.
  - intros p Hp. apply Portal_update_apart.
    intros m Hm. apply Hapart; assumption.
  - apply portals_group_update_apart, Hapart.
Qed.

Lemma portals_update_is_idle_witness :
  let g2 := monsters_group_update (Player_update no_keys ambush) in
  let h2 := monsters_group_update (Player_update no_keys stroll) in
  current_game_state g2 = GAME_STATE_GAME_OVER
  /\ current_game_state h2 = GAME_STATE_PLAYING
  /\ portals_group_update h2 = h2.
Proof.
  cbv zeta.
  split; [vm_compute; reflexivity|].
  assert (H : current_game_state
                (monsters_group_update (Player_update no_keys stroll))
              = GAME_STATE_PLAYING) by (vm_compute; reflexivity).
  split; [exact H|].
  apply (portals_update_is_idle no_keys stroll H).
Defined.
